(** * Q-Flash (postgres 9.6/q-flash.c): executor hooks that log query plans

    A shallow embedding of the extension: its GUC-backed globals, the
    eligibility test [qflash_enabled] with its lazily resolved sink
    identifiers, the four executor hooks, the plan-text fixups and the SPI
    logging routine [log_InRelation], followed by the properties that
    the design document states about them.

    Conventions.
    - [Oid] is an unsigned 32-bit catalog identifier, kept as a [Z];
      [InvalidOid] is 0.
    - C [int] counters are [Z] with the two's-complement wrap-around of
      [++] and [--] written out ([wrap_int]; the server is built with
      -fwrapv).
    - C [double] is the kernel's binary64 [float].
    - [char *] values are [string] ([strlen] is [String.length]); the
      [StringInfo] buffer of the plan renderer is a [list ascii] (its [len]
      is the list's length).  A [text] value is not a C string: it is kept
      as its bytes together with the bytes that follow them in memory, and
      reading it with [%s] goes on to the first zero byte.
    - The engine's services (catalog lookups, plan renderer, SPI) are a
      record of functions, [Engine]; what the extension asks of it is
      logged, in order, in the [calls] of the [World].  The rest of each
      hook chain (the saved previous hook, or the standard executor
      routine) is a parameter of the hook that wraps it.
    - [elog] below [ERROR] level only prints a message and is left out. *)

From Stdlib Require Import ZArith String Ascii List Floats Lia.
From stdpp Require Import base list strings.
Import ListNotations.

#[local] Open Scope string_scope.
#[local] Open Scope Z_scope.

(** ** Data model *)

Definition Oid := Z.
Definition InvalidOid : Oid := 0.
Definition OidIsValid (objectId : Oid) : bool := negb (objectId =? InvalidOid).

(** catalog/pg_type.h: the relation identifier of [pg_type]. *)
Definition TypeRelationId : Oid := 1247.

(** nodes/nodes.h *)
Inductive CmdType :=
| CMD_UNKNOWN | CMD_SELECT | CMD_UPDATE | CMD_INSERT | CMD_DELETE
| CMD_UTILITY | CMD_NOTHING.

Definition CmdType_eqb (a b : CmdType) : bool :=
  match a, b with
  | CMD_UNKNOWN, CMD_UNKNOWN | CMD_SELECT, CMD_SELECT
  | CMD_UPDATE, CMD_UPDATE | CMD_INSERT, CMD_INSERT
  | CMD_DELETE, CMD_DELETE | CMD_UTILITY, CMD_UTILITY
  | CMD_NOTHING, CMD_NOTHING => true
  | _, _ => false
  end.

(** The part of [PlannedStmt] the extension reads.  A PostgreSQL [List *]
    is [NIL] (the null pointer) exactly when it is empty, so [relationOids]
    is a [list Oid] and [NULL] is [[]]. *)
Record PlannedStmt := { relationOids : list Oid }.

(** executor/instrument.h: [total] is the accumulated run time in seconds. *)
Record Instrumentation := { total : float }.

(** executor/instrument.h: [INSTRUMENT_ALL] is [PG_INT32_MAX]. *)
Definition INSTRUMENT_ALL : Z := 2147483647.

(** The part of [QueryDesc] the extension reads and writes; [totaltime] is
    a pointer and may be [NULL]. *)
Record QueryDesc := {
  operation : CmdType;
  sourceText : string;
  plannedstmt : PlannedStmt;
  instrument_options : Z;
  totaltime : option Instrumentation
}.

Inductive ExplainFormat :=
| EXPLAIN_FORMAT_TEXT | EXPLAIN_FORMAT_XML | EXPLAIN_FORMAT_JSON
| EXPLAIN_FORMAT_YAML.

Definition ExplainFormat_eqb (a b : ExplainFormat) : bool :=
  match a, b with
  | EXPLAIN_FORMAT_TEXT, EXPLAIN_FORMAT_TEXT
  | EXPLAIN_FORMAT_XML, EXPLAIN_FORMAT_XML
  | EXPLAIN_FORMAT_JSON, EXPLAIN_FORMAT_JSON
  | EXPLAIN_FORMAT_YAML, EXPLAIN_FORMAT_YAML => true
  | _, _ => false
  end.

(** commands/explain.h; [str] is the output buffer. *)
Record ExplainState := {
  str : list ascii;
  verbose : bool;
  analyze : bool;
  buffers : bool;
  timing : bool;
  summary : bool;
  format : ExplainFormat
}.

(** [NewExplainState()]: every option off, text format, empty buffer. *)
Definition NewExplainState : ExplainState :=
  {| str := []; verbose := false; analyze := false; buffers := false;
     timing := false; summary := false; format := EXPLAIN_FORMAT_TEXT |}.

(** The file's static variables (lines 15-26). *)
Record Globals := {
  qflash_enabled_status : bool;
  qflash_log_min_duration : float;
  qflash_log_hash : string;
  qflash_log_rel_name : string;
  qflash_log_namespace_name : string;
  qflash_log_namespace_oid : Oid;
  qflash_log_rel_oid : Oid;
  qflash_log_nested : bool;
  nesting_level : Z;
  nesting_spi_level : Z
}.

(** The values the variables are initialised with. *)
Definition initial_globals : Globals :=
  {| qflash_enabled_status := false;
     qflash_log_min_duration := 0%float;
     qflash_log_hash := "";
     qflash_log_rel_name := "";
     qflash_log_namespace_name := "";
     qflash_log_namespace_oid := InvalidOid;
     qflash_log_rel_oid := InvalidOid;
     qflash_log_nested := false;
     nesting_level := 0;
     nesting_spi_level := 0 |}.

Definition with_namespace_oid (v : Oid) (g : Globals) : Globals :=
  {| qflash_enabled_status := qflash_enabled_status g;
     qflash_log_min_duration := qflash_log_min_duration g;
     qflash_log_hash := qflash_log_hash g;
     qflash_log_rel_name := qflash_log_rel_name g;
     qflash_log_namespace_name := qflash_log_namespace_name g;
     qflash_log_namespace_oid := v;
     qflash_log_rel_oid := qflash_log_rel_oid g;
     qflash_log_nested := qflash_log_nested g;
     nesting_level := nesting_level g;
     nesting_spi_level := nesting_spi_level g |}.

Definition with_rel_oid (v : Oid) (g : Globals) : Globals :=
  {| qflash_enabled_status := qflash_enabled_status g;
     qflash_log_min_duration := qflash_log_min_duration g;
     qflash_log_hash := qflash_log_hash g;
     qflash_log_rel_name := qflash_log_rel_name g;
     qflash_log_namespace_name := qflash_log_namespace_name g;
     qflash_log_namespace_oid := qflash_log_namespace_oid g;
     qflash_log_rel_oid := v;
     qflash_log_nested := qflash_log_nested g;
     nesting_level := nesting_level g;
     nesting_spi_level := nesting_spi_level g |}.

Definition with_nesting_level (v : Z) (g : Globals) : Globals :=
  {| qflash_enabled_status := qflash_enabled_status g;
     qflash_log_min_duration := qflash_log_min_duration g;
     qflash_log_hash := qflash_log_hash g;
     qflash_log_rel_name := qflash_log_rel_name g;
     qflash_log_namespace_name := qflash_log_namespace_name g;
     qflash_log_namespace_oid := qflash_log_namespace_oid g;
     qflash_log_rel_oid := qflash_log_rel_oid g;
     qflash_log_nested := qflash_log_nested g;
     nesting_level := v;
     nesting_spi_level := nesting_spi_level g |}.

Definition with_nesting_spi_level (v : Z) (g : Globals) : Globals :=
  {| qflash_enabled_status := qflash_enabled_status g;
     qflash_log_min_duration := qflash_log_min_duration g;
     qflash_log_hash := qflash_log_hash g;
     qflash_log_rel_name := qflash_log_rel_name g;
     qflash_log_namespace_name := qflash_log_namespace_name g;
     qflash_log_namespace_oid := qflash_log_namespace_oid g;
     qflash_log_rel_oid := qflash_log_rel_oid g;
     qflash_log_nested := qflash_log_nested g;
     nesting_level := nesting_level g;
     nesting_spi_level := v |}.

Definition with_min_duration (v : float) (g : Globals) : Globals :=
  {| qflash_enabled_status := qflash_enabled_status g;
     qflash_log_min_duration := v;
     qflash_log_hash := qflash_log_hash g;
     qflash_log_rel_name := qflash_log_rel_name g;
     qflash_log_namespace_name := qflash_log_namespace_name g;
     qflash_log_namespace_oid := qflash_log_namespace_oid g;
     qflash_log_rel_oid := qflash_log_rel_oid g;
     qflash_log_nested := qflash_log_nested g;
     nesting_level := nesting_level g;
     nesting_spi_level := nesting_spi_level g |}.

(** C [int]: the result of [++] and [--] wraps to 32 bits, two's complement. *)
Definition wrap_int (z : Z) : Z := (z + 2 ^ 31) mod 2 ^ 32 - 2 ^ 31.

Definition int_range (z : Z) : Prop := - 2 ^ 31 <= z < 2 ^ 31.

(** ** The engine, as the extension sees it *)

(** A [Datum] handed to SPI: [CStringGetTextDatum] and [Float8GetDatum]. *)
Inductive Datum :=
| TextDatum (s : string)
| Float8Datum (d : float).

(** Type identifiers of catalog/pg_type.h. *)
Definition TEXTOID : Oid := 25.
Definition FLOAT8OID : Oid := 701.

(** One call from the extension into the engine. *)
Inductive Call :=
| C_standard_ExecutorStart (eflags : Z)
| C_MemoryContextSwitchTo_es_query_cxt
| C_InstrAlloc (n : Z) (instrument_options : Z)
| C_MemoryContextSwitchTo_oldcxt
| C_InstrEndLoop
| C_standard_ExecutorEnd
| C_SPI_push
| C_SPI_pop
| C_SPI_connect
| C_SPI_prepare (src : string) (nargs : Z) (argtypes : list Oid)
| C_SPI_execute_plan (src : string) (values : list Datum) (nulls : list ascii)
    (read_only : bool) (count : Z)
| C_SPI_execute (src : string) (read_only : bool) (count : Z)
| C_SPI_finish
| C_pfree.

(** executor/spi.h *)
Definition SPI_OK_CONNECT : Z := 1.
Definition SPI_OK_FINISH : Z := 2.
Definition SPI_OK_UTILITY : Z := 4.

(** What the engine answers.  [get_namespace_oid name] is the lookup with
    [missing_ok = true]: [InvalidOid] when there is no such schema.  The
    four renderer entries give the text each call appends to [es->str].  An
    SPI answer is the return code of the call ([SPI_prepare]: whether the plan
    pointer is non-null) and may depend on the calls made so far.  The
    statement that [SPI_execute_plan] runs passes through the executor, and
    so through the hooks below, before the call returns: that execution is
    not part of the record, it is a parameter of the routine that makes the
    call ([log_InRelation_running]). *)
Record Engine := {
  get_namespace_oid : string -> Oid;
  get_relname_relid : string -> Oid -> Oid;
  ExplainBeginOutput : ExplainState -> list ascii;
  ExplainPrintPlan : ExplainState -> QueryDesc -> list ascii;
  ExplainPrintTriggers : ExplainState -> QueryDesc -> list ascii;
  ExplainEndOutput : ExplainState -> list ascii;
  InstrEndLoop : Instrumentation -> Instrumentation;
  SPI_connect : list Call -> Z;
  SPI_prepare : list Call -> bool;
  SPI_execute_plan : list Call -> Z;
  SPI_execute : list Call -> Z;
  SPI_finish : list Call -> Z
}.

(** ** Control flow of a backend function

    A function of the extension either returns, leaves through
    [elog(ERROR, ...)] (a [longjmp] to the innermost [PG_TRY]), or dereferences
    a null pointer.  The globals and the log of engine calls are threaded
    through all three. *)

Record World := { globals : Globals; calls : list Call }.

Inductive Outcome (A : Type) :=
| Returned (a : A)
| Raised (msg : string)
| Crashed.

Arguments Returned {A} a.
Arguments Raised {A} msg.
Arguments Crashed {A}.

Definition M (A : Type) : Type := World -> Outcome A * World.

Definition ret {A} (a : A) : M A := fun w => (Returned a, w).

Definition bind {A B} (c : M A) (k : A -> M B) : M B :=
  fun w =>
    match c w with
    | (Returned a, w') => k a w'
    | (Raised msg, w') => (Raised msg, w')
    | (Crashed, w') => (Crashed, w')
    end.

Declare Scope hook_scope.
Delimit Scope hook_scope with hook.
Notation "'let*' x ':=' c 'in' k" := (bind c (fun x => k))
  (at level 10, x name, c at level 100, k at level 200) : hook_scope.
Notation "c1 ;; c2" := (bind c1 (fun _ => c2))
  (at level 100, c2 at level 200, right associativity) : hook_scope.
#[local] Open Scope hook_scope.

(** [elog(ERROR, msg)] does not return. *)
Definition elog_ERROR {A} (msg : string) : M A := fun w => (Raised msg, w).

(** A null or out-of-bounds access. *)
Definition crash {A} : M A := fun w => (Crashed, w).

(** [PG_TRY(); { body } PG_CATCH(); { handler } PG_END_TRY();] *)
Definition PG_TRY {A} (body : M A) (handler : string -> M A) : M A :=
  fun w =>
    match body w with
    | (Raised msg, w') => handler msg w'
    | r => r
    end.

(** [PG_RE_THROW()] inside a handler: the caught error goes on. *)
Definition PG_RE_THROW {A} (msg : string) : M A := elog_ERROR msg.

Definition call (c : Call) : M unit :=
  fun w => (Returned tt, {| globals := globals w; calls := calls w ++ [c] |}).

(** Ask the engine for an answer that may depend on the calls so far. *)
Definition answer {A} (f : list Call -> A) : M A :=
  fun w => (Returned (f (calls w)), w).

Definition get_globals : M Globals := fun w => (Returned (globals w), w).

Definition on_globals {A} (f : Globals -> A * Globals) : M A :=
  fun w =>
    let (a, g) := f (globals w) in
    (Returned a, {| globals := g; calls := calls w |}).

Definition set_globals (f : Globals -> Globals) : M unit :=
  on_globals (fun g => (tt, f g)).

(** ** Sink identifiers and eligibility (lines 151-228) *)

Section Catalog.

Variable E : Engine.

Definition set_qflash_namespace_oid (namespace_name : string) (g : Globals)
  : bool * Globals :=
  if (String.length namespace_name =? 0)%nat then (false, g)
  else
    let g := with_namespace_oid (get_namespace_oid E namespace_name) g in
    if negb (OidIsValid (qflash_log_namespace_oid g)) then (false, g)
    else (true, g).

Definition set_qflash_relname_oid (relname_name : string) (g : Globals)
  : bool * Globals :=
  if negb (OidIsValid (qflash_log_namespace_oid g))
     || (String.length relname_name =? 0)%nat
  then (false, g)
  else
    let g :=
      with_rel_oid
        (get_relname_relid E relname_name (qflash_log_namespace_oid g)) g in
    if negb (OidIsValid (qflash_log_rel_oid g)) then (false, g)
    else (true, g).

Definition get_qflash_log_rel_oid (g : Globals) : Oid * Globals :=
  let g :=
    if negb (OidIsValid (qflash_log_rel_oid g)) then
      let g := snd (set_qflash_namespace_oid (qflash_log_namespace_name g) g) in
      snd (set_qflash_relname_oid (qflash_log_rel_name g) g)
    else g in
  (qflash_log_rel_oid g, g).

(** The recursion guard of lines 191-199, on the relation list of the
    statement and the sink identifier as it is after the lookup. *)
Definition recursion_guard (oids : list Oid) (g : Globals) : bool :=
  match oids with
  | [] => true
  | oid_value :: _ =>
      (0 <? Z.of_nat (length oids))
      && negb (oid_value =? qflash_log_rel_oid g)
      && negb (oid_value =? TypeRelationId)
  end.

(** [&&] evaluates left to right and stops at the first false operand, so
    the lookup runs only when the two flags before it let it. *)
Definition qflash_enabled (queryDesc : QueryDesc) (g : Globals)
  : bool * Globals :=
  if negb (qflash_enabled_status g) then (false, g)
  else if negb ((nesting_level g =? 0) || qflash_log_nested g) then (false, g)
  else
    let (oid, g) := get_qflash_log_rel_oid g in
    if negb (negb (oid =? InvalidOid)) then (false, g)
    else if negb (CmdType_eqb (operation queryDesc) CMD_SELECT
                  || CmdType_eqb (operation queryDesc) CMD_UPDATE
                  || CmdType_eqb (operation queryDesc) CMD_INSERT
                  || CmdType_eqb (operation queryDesc) CMD_DELETE)
    then (false, g)
    else (recursion_guard (relationOids (plannedstmt queryDesc)) g, g).

Definition enabled_GucAssign (newval : bool) (g : Globals) : Globals :=
  if newval then g
  else with_namespace_oid InvalidOid (with_rel_oid InvalidOid g).

Definition namespace_GucCheck (newval : string) (g : Globals)
  : bool * Globals :=
  if qflash_enabled_status g then
    let (ok, g) := set_qflash_namespace_oid newval g in
    if negb ok then (false, g) else (true, g)
  else (true, g).

Definition rel_GucCheck (newval : string) (g : Globals) : bool * Globals :=
  if qflash_enabled_status g then
    let (ok, g) := set_qflash_relname_oid newval g in
    if negb ok then (false, g) else (true, g)
  else (true, g).

End Catalog.

(** ** Plan text fixups (lines 342-351) *)

Definition newline : ascii := "010"%char.
Definition lbrace : ascii := "{"%char.
Definition rbrace : ascii := "}"%char.

Definition ascii_eqb_opt (c : option ascii) (d : ascii) : bool :=
  match c with
  | Some c => Ascii.eqb c d
  | None => false
  end.

(** [if (len > 0 && data[len - 1] == '\n') data[--len] = '\0';] *)
Definition remove_last_line_break (data : list ascii) : list ascii :=
  if (0 <? length data)%nat
     && ascii_eqb_opt (data !! (length data - 1)%nat) newline
  then take (length data - 1)%nat data
  else data.

(** [data[0] = '{'; data[len - 1] = '}';]  With [len = 0] the second store
    is to [data[-1]], before the buffer: no result. *)
Definition fix_json (data : list ascii) : option (list ascii) :=
  if (length data =? 0)%nat then None
  else Some (<[(length data - 1)%nat := rbrace]> (<[0%nat := lbrace]> data)).

Definition set_str (v : list ascii) (es : ExplainState) : ExplainState :=
  {| str := v; verbose := verbose es; analyze := analyze es;
     buffers := buffers es; timing := timing es; summary := summary es;
     format := format es |}.

Definition set_analyze (v : bool) (es : ExplainState) : ExplainState :=
  {| str := str es; verbose := verbose es; analyze := v;
     buffers := buffers es; timing := timing es; summary := summary es;
     format := format es |}.

Definition set_verbose (v : bool) (es : ExplainState) : ExplainState :=
  {| str := str es; verbose := v; analyze := analyze es;
     buffers := buffers es; timing := timing es; summary := summary es;
     format := format es |}.

Definition set_buffers (v : bool) (es : ExplainState) : ExplainState :=
  {| str := str es; verbose := verbose es; analyze := analyze es;
     buffers := v; timing := timing es; summary := summary es;
     format := format es |}.

Definition set_timing (v : bool) (es : ExplainState) : ExplainState :=
  {| str := str es; verbose := verbose es; analyze := analyze es;
     buffers := buffers es; timing := v; summary := summary es;
     format := format es |}.

Definition set_summary (v : bool) (es : ExplainState) : ExplainState :=
  {| str := str es; verbose := verbose es; analyze := analyze es;
     buffers := buffers es; timing := timing es; summary := v;
     format := format es |}.

Definition set_format (v : ExplainFormat) (es : ExplainState) : ExplainState :=
  {| str := str es; verbose := verbose es; analyze := analyze es;
     buffers := buffers es; timing := timing es; summary := summary es;
     format := v |}.

(** Lines 327-334: the settings the plan is rendered with. *)
Definition plan_settings : ExplainState :=
  let es := NewExplainState in
  let es := set_analyze true es in
  let es := set_verbose true es in
  let es := set_buffers (analyze es) es in
  let es := set_timing (analyze es) es in
  let es := set_summary (analyze es) es in
  set_format EXPLAIN_FORMAT_TEXT es.

Definition is_NULL {A} (p : option A) : bool :=
  match p with
  | None => true
  | Some _ => false
  end.

Definition set_instrument_options (v : Z) (d : QueryDesc) : QueryDesc :=
  {| operation := operation d; sourceText := sourceText d;
     plannedstmt := plannedstmt d; instrument_options := v;
     totaltime := totaltime d |}.

Definition set_totaltime (v : option Instrumentation) (d : QueryDesc)
  : QueryDesc :=
  {| operation := operation d; sourceText := sourceText d;
     plannedstmt := plannedstmt d;
     instrument_options := instrument_options d; totaltime := v |}.

(** ** Logging through SPI (lines 365-425) and the sink's DDL (lines 64-102) *)

Definition dquote : string := String "034"%char EmptyString.
Definition tab : string := String "009"%char EmptyString.

Definition generate_insert_log_query (g : Globals) : string :=
  "INSERT INTO " ++ qflash_log_namespace_name g ++ "."
  ++ qflash_log_rel_name g
  ++ " (query, plan, total_time, hash) VALUES ($1, $2, $3, $4)".

Definition execute_plan_failed (query_string source : string) : string :=
  "SPI_execute_plan failed for " ++ dquote ++ query_string ++ dquote
  ++ " when log query " ++ dquote ++ source ++ dquote.

(** The text [appendStringInfo] builds at lines 72-83; a backslash at the
    end of a source line splices the next line, tabs included, into the
    literal. *)
Definition ddl_columns : string :=
  tab ++ tab ++ "("
  ++ tab ++ tab ++ tab ++ "id BIGSERIAL NOT NULL,"
  ++ tab ++ tab ++ tab ++ "added TIME WITH TIME ZONE NOT NULL DEFAULT now(),"
  ++ tab ++ tab ++ tab ++ "query TEXT,"
  ++ tab ++ tab ++ tab ++ "plan TEXT,"
  ++ tab ++ tab ++ tab ++ "total_time DOUBLE PRECISION,"
  ++ tab ++ tab ++ tab ++ "hash TEXT,"
  ++ tab ++ tab ++ tab ++ "CONSTRAINT qflash_pkey PRIMARY KEY(id)"
  ++ tab ++ tab ++ ")"
  ++ tab.

Definition ddl_query (namespace_name relname_name : string) : string :=
  tab ++ tab ++ "CREATE TABLE " ++ namespace_name ++ "." ++ relname_name
  ++ ddl_columns.

Inductive ScanDirection :=
| BackwardScanDirection | NoMovementScanDirection | ForwardScanDirection.

(** A [text] value as [PG_GETARG_TEXT_P] hands it over: a length header
    and [vl_dat], the bytes of the value, with no terminator.  [beyond] is
    what the memory holds right after them, up to where it can be read. *)
Record text := { vl_dat : list ascii; beyond : list ascii }.

(** [VARDATA(t)] used as a [char *]: the memory from the first byte of the
    value on. *)
Definition VARDATA (t : text) : list ascii := (vl_dat t ++ beyond t)%list.

Definition NUL : ascii := "000"%char.

(** What [%s] prints for a [char *]: the bytes before the first zero byte.
    With no zero byte in the readable memory the read runs off its end. *)
Fixpoint c_string (memory : list ascii) : option string :=
  match memory with
  | [] => None
  | c :: memory =>
      if Ascii.eqb c NUL then Some EmptyString
      else option_map (String c) (c_string memory)
  end.

Section Persistence.

Variable E : Engine.

(** Lines 382-397: the way into a usable SPI context, chosen from the two
    depths.  The two [if] statements follow each other, so that after a push
    the depths are equal and the [else] branch of the second connects. *)
Definition connect_at_depth : M unit :=
  let* g := get_globals in
  (if nesting_spi_level g <? nesting_level g then
     call C_SPI_push;;
     set_globals (fun g => with_nesting_spi_level (nesting_level g) g)
   else ret tt);;
  let* g := get_globals in
  if nesting_spi_level g >? nesting_level g then
    call C_SPI_pop;;
    set_globals (fun g => with_nesting_spi_level (nesting_level g) g)
  else
    let* rc := answer (SPI_connect E) in
    call C_SPI_connect;;
    if negb (rc =? SPI_OK_CONNECT) then elog_ERROR "SPI_connect failed"
    else ret tt.

(** [values] reads [queryDesc->totaltime->total] before anything else;
    [generate_insert_log_query] never returns [NULL].  [plan_execution] is
    what the engine does inside [SPI_execute_plan] before it returns: it
    runs the INSERT through the executor, and so through the four hooks of
    this file; an error raised there leaves [log_InRelation] at once. *)
Definition log_InRelation_running (plan_execution : M unit)
    (es : ExplainState) (queryDesc : QueryDesc) : M unit :=
  let* g := get_globals in
  match totaltime queryDesc with
  | None => crash
  | Some instr =>
      let arg_types := [TEXTOID; TEXTOID; FLOAT8OID; TEXTOID] in
      let nulls :=
        [" "%char; " "%char; " "%char;
         if (String.length (qflash_log_hash g) =? 0)%nat
         then "n"%char else " "%char] in
      let values :=
        [TextDatum (sourceText queryDesc);
         TextDatum (string_of_list_ascii (str es));
         Float8Datum (total instr * 1000)%float;
         TextDatum (qflash_log_hash g)] in
      let query_string := generate_insert_log_query g in
      connect_at_depth;;
      let* spi_plan := answer (SPI_prepare E) in
      call (C_SPI_prepare query_string 4 arg_types);;
      (if negb spi_plan
       then elog_ERROR (execute_plan_failed query_string (sourceText queryDesc))
       else ret tt);;
      let* spi_res_state := answer (SPI_execute_plan E) in
      call (C_SPI_execute_plan query_string values nulls false 1);;
      plan_execution;;
      (if spi_res_state <=? 0
       then elog_ERROR (execute_plan_failed query_string (sourceText queryDesc))
       else ret tt);;
      let* rc := answer (SPI_finish E) in
      call C_SPI_finish;;
      if negb (rc =? SPI_OK_FINISH) then elog_ERROR "SPI_finish failed"
      else ret tt
  end.

(** [log_InRelation] on its own: the INSERT passes through the executor
    with nothing of this file taking part. *)
Definition log_InRelation (es : ExplainState) (queryDesc : QueryDesc)
  : M unit :=
  log_InRelation_running (ret tt) es queryDesc.

(** Lines 72-83 print [VARDATA] of each argument with [%s]: the name that
    goes into the DDL text is what is read up to the first zero byte, the
    bytes of the value and whatever follows them.  The
    [PG_RETURN_BOOL(false)] after the first [elog] is not reached. *)
Definition qflash_init (namespace_name relname_name : text) : M bool :=
  let* namespace_read :=
    match c_string (VARDATA namespace_name) with
    | Some name => ret name
    | None => crash
    end in
  let* relname_read :=
    match c_string (VARDATA relname_name) with
    | Some name => ret name
    | None => crash
    end in
  let ddl := ddl_query namespace_read relname_read in
  let* rc := answer (SPI_connect E) in
  call C_SPI_connect;;
  (if negb (rc =? SPI_OK_CONNECT) then elog_ERROR "SPI_connect failed"
   else ret tt);;
  let* rc := answer (SPI_execute E) in
  call (C_SPI_execute ddl false 1);;
  (if negb (rc =? SPI_OK_UTILITY) then elog_ERROR "SPI_execute DDL failed"
   else ret tt);;
  let* rc := answer (SPI_finish E) in
  call C_SPI_finish;;
  (if negb (rc =? SPI_OK_FINISH) then elog_ERROR "SPI_finish failed"
   else ret tt);;
  ret true.

End Persistence.

(** ** The executor hooks (lines 240-363) *)

Definition nesting_level_incr (g : Globals) : Globals :=
  with_nesting_level (wrap_int (nesting_level g + 1)) g.

Definition nesting_level_decr (g : Globals) : Globals :=
  with_nesting_level (wrap_int (nesting_level g - 1)) g.

Section ExecutorHooks.

Variable E : Engine.

(** The saved hook of each kind ([None] is the null pointer) and the
    standard routine that runs when there is none. *)
Variable prev_ExecutorStart : option (QueryDesc -> Z -> M QueryDesc).
Variable standard_ExecutorStart : QueryDesc -> Z -> M QueryDesc.
Variable prev_ExecutorRun : option (QueryDesc -> ScanDirection -> Z -> M unit).
Variable standard_ExecutorRun : QueryDesc -> ScanDirection -> Z -> M unit.
Variable prev_ExecutorFinish : option (QueryDesc -> M unit).
Variable standard_ExecutorFinish : QueryDesc -> M unit.
Variable prev_ExecutorEnd : option (QueryDesc -> M unit).
Variable standard_ExecutorEnd : QueryDesc -> M unit.

Definition explain_ExecutorStart (queryDesc : QueryDesc) (eflags : Z)
  : M QueryDesc :=
  let* enabled := on_globals (qflash_enabled E queryDesc) in
  let queryDesc :=
    if enabled : bool then
      set_instrument_options
        (Z.lor (instrument_options queryDesc) INSTRUMENT_ALL) queryDesc
    else queryDesc in
  let* queryDesc :=
    match prev_ExecutorStart with
    | Some prev => prev queryDesc eflags
    | None => standard_ExecutorStart queryDesc eflags
    end in
  let* enabled := on_globals (qflash_enabled E queryDesc) in
  if enabled && is_NULL (totaltime queryDesc) then
    call C_MemoryContextSwitchTo_es_query_cxt;;
    call (C_InstrAlloc 1 INSTRUMENT_ALL);;
    call C_MemoryContextSwitchTo_oldcxt;;
    ret (set_totaltime (Some {| total := 0 |}) queryDesc)
  else ret queryDesc.

Definition explain_ExecutorRun (queryDesc : QueryDesc)
    (direction : ScanDirection) (count : Z) : M unit :=
  set_globals nesting_level_incr;;
  PG_TRY
    ((match prev_ExecutorRun with
      | Some prev => prev queryDesc direction count
      | None => standard_ExecutorRun queryDesc direction count
      end);;
     set_globals nesting_level_decr)
    (fun err =>
       set_globals nesting_level_decr;;
       PG_RE_THROW err).

Definition explain_ExecutorFinish (queryDesc : QueryDesc) : M unit :=
  set_globals nesting_level_incr;;
  PG_TRY
    ((match prev_ExecutorFinish with
      | Some prev => prev queryDesc
      | None => standard_ExecutorFinish queryDesc
      end);;
     set_globals nesting_level_decr)
    (fun err =>
       set_globals nesting_level_decr;;
       PG_RE_THROW err).

(** Lines 336-340: the renderer appends to [es->str]. *)
Definition explain_output (es : ExplainState) (queryDesc : QueryDesc)
  : ExplainState :=
  let es := set_str (str es ++ ExplainBeginOutput E es)%list es in
  let es := set_str (str es ++ ExplainPrintPlan E es queryDesc)%list es in
  let es :=
    if analyze es
    then set_str (str es ++ ExplainPrintTriggers E es queryDesc)%list es
    else es in
  set_str (str es ++ ExplainEndOutput E es)%list es.

(** Lines 342-351: the two fixups. *)
Definition fixup_plan (es : ExplainState) : M ExplainState :=
  let es := set_str (remove_last_line_break (str es)) es in
  if ExplainFormat_eqb (format es) EXPLAIN_FORMAT_JSON then
    match fix_json (str es) with
    | Some data => ret (set_str data es)
    | None => crash
    end
  else ret es.

(** Lines 359-360. *)
Definition ExecutorEnd_chain (queryDesc : QueryDesc) : M unit :=
  match prev_ExecutorEnd with
  | Some prev => prev queryDesc
  | None => standard_ExecutorEnd queryDesc
  end.

(** The [return] of line 325 leaves the function: lines 359-360 do not
    run on that path.  With no instrumentation record, line 322 calls
    [InstrEndLoop(NULL)], which reads through the null pointer.
    [plan_execution] is handed on to [log_InRelation_running]. *)
Definition explain_ExecutorEnd_running (plan_execution : M unit)
    (queryDesc : QueryDesc) : M unit :=
  let* enabled := on_globals (qflash_enabled E queryDesc) in
  if enabled : bool then
    call C_InstrEndLoop;;
    match totaltime queryDesc with
    | None => crash
    | Some instr =>
        let instr := InstrEndLoop E instr in
        let queryDesc := set_totaltime (Some instr) queryDesc in
        let* g := get_globals in
        if (total instr * 1000 <=? qflash_log_min_duration g)%float
        then ret tt
        else
          let* es := fixup_plan (explain_output plan_settings queryDesc) in
          log_InRelation_running E plan_execution es queryDesc;;
          call C_pfree;;
          ExecutorEnd_chain queryDesc
    end
  else ExecutorEnd_chain queryDesc.

(** The end hook on its own: the INSERT of [log_InRelation] passes through
    the executor with nothing of this file taking part. *)
Definition explain_ExecutorEnd (queryDesc : QueryDesc) : M unit :=
  explain_ExecutorEnd_running (ret tt) queryDesc.

End ExecutorHooks.

(** ** Nested executions

    While the standard [ExecutorRun] or [ExecutorFinish] of one query runs,
    functions and triggers may run further queries, each of which passes
    through the four hooks again; any of them may raise an error, and a
    procedural-language exception block may catch it.  The same holds for
    the INSERT that the end hook sends through [SPI_execute_plan] when it
    logs the query.  [Activity] is what the engine does at one of these
    places, [Query] one query with the activity of its run phase, that of
    its finish phase, and [logging], that of the [SPI_execute_plan] call of
    its end hook (not run when the end hook does not get that far). *)

Inductive Activity :=
| A_return
| A_error (msg : string)
| A_query (q : Query) (rest : Activity)
| A_catch (body : Activity) (rest : Activity)
with Query :=
| Q (queryDesc : QueryDesc) (eflags : Z) (run : Activity) (finish : Activity)
    (logging : Activity) (measured : QueryDesc -> QueryDesc).

Scheme Activity_mind := Induction for Activity Sort Prop
  with Query_mind := Induction for Query Sort Prop.

Section Nested.

Variable E : Engine.

Definition standard_ExecutorStart (queryDesc : QueryDesc) (eflags : Z)
  : M QueryDesc :=
  call (C_standard_ExecutorStart eflags);; ret queryDesc.

Definition standard_ExecutorEnd (queryDesc : QueryDesc) : M unit :=
  call C_standard_ExecutorEnd.

(** [measured] is what the executor has made of the descriptor (the
    accumulated [totaltime]) by the time [ExecutorEnd] is called.  After
    an error the remaining steps of the query are not run. *)
Fixpoint perform (a : Activity) : M unit :=
  match a with
  | A_return => ret tt
  | A_error msg => elog_ERROR msg
  | A_query q rest => execute q;; perform rest
  | A_catch body rest =>
      PG_TRY (perform body) (fun _ => ret tt);; perform rest
  end
with execute (q : Query) : M unit :=
  match q with
  | Q queryDesc eflags run finish logging measured =>
      let* queryDesc :=
        explain_ExecutorStart E None standard_ExecutorStart queryDesc eflags in
      explain_ExecutorRun None (fun _ _ _ => perform run)
        queryDesc ForwardScanDirection 0;;
      explain_ExecutorFinish None (fun _ => perform finish) queryDesc;;
      explain_ExecutorEnd_running E None standard_ExecutorEnd
        (perform logging) (measured queryDesc)
  end.

End Nested.

(** ** Vocabulary of the statements *)

(** The rows handed to [SPI_execute_plan], oldest first: one per call, as
    the pair of the four values and their null flags. *)
Fixpoint log_records (cs : list Call) : list (list Datum * list ascii) :=
  match cs with
  | [] => []
  | C_SPI_execute_plan _ values nulls _ _ :: cs =>
      (values, nulls) :: log_records cs
  | _ :: cs => log_records cs
  end.

(** The three ways [log_InRelation] can reach a usable SPI context. *)
Definition is_connection_step (c : Call) : bool :=
  match c with
  | C_SPI_push | C_SPI_pop | C_SPI_connect => true
  | _ => false
  end.

Definition connection_steps (cs : list Call) : list Call :=
  filter (fun c => is_connection_step c = true) cs.

(** The design document's scoped guard around a delegated call: the depth
    is raised on entry and lowered on every way out that unwinds the stack,
    the error going on after the release. *)
Definition depth_guard (delegate : M unit) : M unit :=
  fun w =>
    let entered :=
      {| globals := nesting_level_incr (globals w); calls := calls w |} in
    let release w' :=
      {| globals := nesting_level_decr (globals w'); calls := calls w' |} in
    match delegate entered with
    | (Returned _, w') => (Returned tt, release w')
    | (Raised msg, w') => (Raised msg, release w')
    | (Crashed, w') => (Crashed, w')
    end.

(** The plan the end hook hands to [log_InRelation]: rendered with the
    settings of lines 327-334, last line break removed. *)
Definition logged_plan (E : Engine) (queryDesc : QueryDesc) : ExplainState :=
  let es := explain_output E plan_settings queryDesc in
  set_str (remove_last_line_break (str es)) es.


(** The connection steps that go with the two depths [log_InRelation]
    finds. *)
Definition steps_for (g : Globals) : list Call :=
  if nesting_spi_level g <? nesting_level g then [C_SPI_push; C_SPI_connect]
  else if nesting_spi_level g >? nesting_level g then [C_SPI_pop]
  else [C_SPI_connect].

(** A cached relation identifier comes with a cached namespace identifier. *)
Definition sink_ids_consistent (g : Globals) : Prop :=
  OidIsValid (qflash_log_rel_oid g) = true ->
  OidIsValid (qflash_log_namespace_oid g) = true.

(** The row [log_InRelation] builds from the statement, the plan text and
    the configured hash: the four values and their null flags. *)
Definition log_record (g : Globals) (es : ExplainState) (queryDesc : QueryDesc)
    (instr : Instrumentation) : list Datum * list ascii :=
  ([TextDatum (sourceText queryDesc);
    TextDatum (string_of_list_ascii (str es));
    Float8Datum (total instr * 1000)%float;
    TextDatum (qflash_log_hash g)],
   [" "%char; " "%char; " "%char;
    if (String.length (qflash_log_hash g) =? 0)%nat
    then "n"%char else " "%char]).

(** [level_kept c]: from an execution depth that a C [int] holds, [c]
    ends, by return or by error, at the depth it started from. *)
Definition level_kept {A} (c : M A) : Prop :=
  forall w,
    int_range (nesting_level (globals w)) ->
    match c w with
    | (Crashed, _) => True
    | (_, w') => nesting_level (globals w') = nesting_level (globals w)
    end.

(** *** Reading the table elements of the DDL text

    The elements of a [CREATE TABLE] body: the text between the outer
    parentheses, cut at the commas that are not inside parentheses, blanks
    and tabs trimmed at both ends. *)







(** *** A small installation

    A catalog with the schema [public] (2200) holding the sink table
    [qflash_log] (16384) and a table [orders] (16390), and an empty schema
    [audit] (2300); a renderer that prints one plan line; an SPI that always
    succeeds. *)

Definition demo_engine : Engine :=
  {| get_namespace_oid := fun name =>
       if String.eqb name "public" then 2200
       else if String.eqb name "audit" then 2300
       else InvalidOid;
     get_relname_relid := fun name ns =>
       if (ns =? 2200) && String.eqb name "qflash_log" then 16384
       else if (ns =? 2200) && String.eqb name "orders" then 16390
       else InvalidOid;
     ExplainBeginOutput := fun _ => [];
     ExplainPrintPlan := fun _ _ =>
       (list_ascii_of_string "Seq Scan on public.orders" ++ [newline])%list;
     ExplainPrintTriggers := fun _ _ => [];
     ExplainEndOutput := fun _ => [];
     InstrEndLoop := fun instr => instr;
     SPI_connect := fun _ => SPI_OK_CONNECT;
     SPI_prepare := fun _ => true;
     SPI_execute_plan := fun _ => 5;
     SPI_execute := fun _ => SPI_OK_UTILITY;
     SPI_finish := fun _ => SPI_OK_FINISH |}.

(** The globals after [SET qflash.log_namespace_name = 'public'],
    [SET qflash.log_relname = 'qflash_log'], [SET qflash.log_hash = 't1'] and
    [SET qflash.enabled = on], in this order: while the flag is off the two
    check hooks accept a name without looking it up, and switching the flag
    on changes nothing else. *)
Definition demo_globals : Globals :=
  {| qflash_enabled_status := true;
     qflash_log_min_duration := 0%float;
     qflash_log_hash := "t1";
     qflash_log_rel_name := "qflash_log";
     qflash_log_namespace_name := "public";
     qflash_log_namespace_oid := InvalidOid;
     qflash_log_rel_oid := InvalidOid;
     qflash_log_nested := false;
     nesting_level := 0;
     nesting_spi_level := 0 |}.

Definition demo_world (g : Globals) : World := {| globals := g; calls := [] |}.

(** A statement of kind [op] over the relations [oids] that ran for
    [seconds]. *)
Definition demo_query (op : CmdType) (oids : list Oid) (seconds : float)
  : QueryDesc :=
  {| operation := op;
     sourceText := "select 1";
     plannedstmt := {| relationOids := oids |};
     instrument_options := 0;
     totaltime := Some {| total := seconds |} |}.

(** The globals once the sink has been resolved by a first eligible
    statement, and then after [SET qflash.log_namespace_name = 'nosuch'],
    whose check hook refuses the name. *)
Definition demo_resolved : Globals :=
  snd (get_qflash_log_rel_oid demo_engine demo_globals).

Definition demo_refused : Globals :=
  snd (namespace_GucCheck demo_engine "nosuch" demo_resolved).

(** As [demo_globals], with [qflash.log_relname] set to a table that does
    not exist. *)
Definition demo_missing : Globals :=
  {| qflash_enabled_status := true;
     qflash_log_min_duration := 0%float;
     qflash_log_hash := "t1";
     qflash_log_rel_name := "missing";
     qflash_log_namespace_name := "public";
     qflash_log_namespace_oid := InvalidOid;
     qflash_log_rel_oid := InvalidOid;
     qflash_log_nested := false;
     nesting_level := 0;
     nesting_spi_level := 0 |}.

(** The INSERT of [log_InRelation] as the executor sees it, over the
    relations [oids]. *)
Definition demo_insert (oids : list Oid) : QueryDesc :=
  {| operation := CMD_INSERT;
     sourceText := generate_insert_log_query demo_resolved;
     plannedstmt := {| relationOids := oids |};
     instrument_options := 0;
     totaltime := Some {| total := 0.0625%float |} |}.

(** What [SPI_execute_plan] runs for that INSERT: one insert into the sink
    table [qflash_log], with nothing nested in it. *)
Definition demo_logging : Activity :=
  A_query
    (Q (demo_insert [16384]) 0 A_return A_return A_return (fun d => d))
    A_return.

(** The same when the table named in the INSERT is not the one whose
    identifier is in the cache: a top-level select whose INSERT goes to a
    table with the identifier 16400; the INSERT that logs this INSERT in
    turn ends in the engine's stack depth error. *)
Definition demo_stale : Query :=
  Q (demo_query CMD_SELECT [16390] 0.5%float) 0 A_return A_return
    (A_query
       (Q (demo_insert [16400]) 0 A_return A_return
          (A_error "stack depth limit exceeded") (fun d => d))
       A_return)
    (fun d => d).

(** A top-level select over [orders].  While it runs, a function runs a
    nested select that fails with an error inside an exception block, then a
    nested insert that succeeds; a trigger query runs while it finishes. *)
Definition demo_nested : Query :=
  Q (demo_query CMD_SELECT [16390] 0.5%float) 0
    (A_catch
       (A_query
          (Q (demo_query CMD_SELECT [16390] 0.25%float) 0
             (A_error "division by zero") A_return demo_logging (fun d => d))
          A_return)
       (A_query
          (Q (demo_query CMD_INSERT [16390] 0.25%float) 0
             A_return A_return demo_logging (fun d => d))
          A_return))
    (A_query
       (Q (demo_query CMD_UPDATE [16390] 0.125%float) 0
          A_return A_return demo_logging (fun d => d))
       A_return)
    demo_logging
    (fun d => d).

(** The same top-level select when the nested error is not caught. *)
Definition demo_aborted : Query :=
  Q (demo_query CMD_SELECT [16390] 0.5%float) 0
    (A_query
       (Q (demo_query CMD_SELECT [16390] 0.25%float) 0
          (A_error "division by zero") A_return demo_logging (fun d => d))
       A_return)
    A_return
    demo_logging
    (fun d => d).

(** ** Loading and unloading (lines 104-149 and 230-238)

    The engine keeps one pointer per executor hook; the file keeps the
    pointer it found in each when it was loaded.  A pointer is either the
    function of this file for that hook or some other module's. *)

Inductive HookPtr :=
| QFlash_hook
| Foreign_hook (id : nat).

Inductive GucContext := PGC_USERSET | PGC_SUSET.

Inductive GucVariable :=
| GucBool (boot : bool)
| GucReal (boot min max : float)
| GucString (boot : string).

Inductive GucHook :=
| Hook_enabled_GucAssign
| Hook_namespace_GucCheck
| Hook_rel_GucCheck.

(** One [DefineCustom...Variable] call: name, variable with its boot value
    and bounds, context, check hook, assign hook. *)
Record GucDefinition := {
  guc_name : string;
  guc_variable : GucVariable;
  guc_context : GucContext;
  guc_check_hook : option GucHook;
  guc_assign_hook : option GucHook
}.

Definition DBL_MAX : float := 0x1.fffffffffffffp+1023%float.

Record Backend := {
  ExecutorStart_hook : option HookPtr;
  ExecutorRun_hook : option HookPtr;
  ExecutorFinish_hook : option HookPtr;
  ExecutorEnd_hook : option HookPtr;
  saved_ExecutorStart : option HookPtr;
  saved_ExecutorRun : option HookPtr;
  saved_ExecutorFinish : option HookPtr;
  saved_ExecutorEnd : option HookPtr;
  custom_variables : list GucDefinition
}.

(** The six variables of lines 110-138, in the order they are defined. *)
Definition qflash_variables : list GucDefinition :=
  [ {| guc_name := "qflash.enabled";
       guc_variable := GucBool false;
       guc_context := PGC_USERSET;
       guc_check_hook := None;
       guc_assign_hook := Some Hook_enabled_GucAssign |};
    {| guc_name := "qflash.log_min_duration";
       guc_variable := GucReal 0 0 DBL_MAX;
       guc_context := PGC_USERSET;
       guc_check_hook := None;
       guc_assign_hook := None |};
    {| guc_name := "qflash.log_hash";
       guc_variable := GucString "";
       guc_context := PGC_USERSET;
       guc_check_hook := None;
       guc_assign_hook := None |};
    {| guc_name := "qflash.log_namespace_name";
       guc_variable := GucString "";
       guc_context := PGC_USERSET;
       guc_check_hook := Some Hook_namespace_GucCheck;
       guc_assign_hook := None |};
    {| guc_name := "qflash.log_relname";
       guc_variable := GucString "";
       guc_context := PGC_USERSET;
       guc_check_hook := Some Hook_rel_GucCheck;
       guc_assign_hook := None |};
    {| guc_name := "qflash.log_nested";
       guc_variable := GucBool false;
       guc_context := PGC_SUSET;
       guc_check_hook := None;
       guc_assign_hook := None |} ].

(** [prev_ExecutorStart] and its three siblings are the [saved_] fields. *)
Definition _PG_init (b : Backend) : Backend :=
  {| ExecutorStart_hook := Some QFlash_hook;
     ExecutorRun_hook := Some QFlash_hook;
     ExecutorFinish_hook := Some QFlash_hook;
     ExecutorEnd_hook := Some QFlash_hook;
     saved_ExecutorStart := ExecutorStart_hook b;
     saved_ExecutorRun := ExecutorRun_hook b;
     saved_ExecutorFinish := ExecutorFinish_hook b;
     saved_ExecutorEnd := ExecutorEnd_hook b;
     custom_variables := (custom_variables b ++ qflash_variables)%list |}.

Definition _PG_fini (b : Backend) : Backend :=
  {| ExecutorStart_hook := saved_ExecutorStart b;
     ExecutorRun_hook := saved_ExecutorRun b;
     ExecutorFinish_hook := saved_ExecutorFinish b;
     ExecutorEnd_hook := saved_ExecutorEnd b;
     saved_ExecutorStart := saved_ExecutorStart b;
     saved_ExecutorRun := saved_ExecutorRun b;
     saved_ExecutorFinish := saved_ExecutorFinish b;
     saved_ExecutorEnd := saved_ExecutorEnd b;
     custom_variables := custom_variables b |}.

(** The four engine pointers of a backend. *)
Definition executor_hooks (b : Backend) : list (option HookPtr) :=
  [ExecutorStart_hook b; ExecutorRun_hook b; ExecutorFinish_hook b;
   ExecutorEnd_hook b].

Definition saved_hooks (b : Backend) : list (option HookPtr) :=
  [saved_ExecutorStart b; saved_ExecutorRun b; saved_ExecutorFinish b;
   saved_ExecutorEnd b].

(** ** More vocabulary *)

(** How deep the queries of an activity nest through their run and finish
    phases. *)
Fixpoint activity_depth (a : Activity) : nat :=
  match a with
  | A_return => 0
  | A_error _ => 0
  | A_query q rest => Nat.max (query_depth q) (activity_depth rest)
  | A_catch body rest => Nat.max (activity_depth body) (activity_depth rest)
  end
with query_depth (q : Query) : nat :=
  match q with
  | Q _ _ run finish _ _ =>
      S (Nat.max (activity_depth run) (activity_depth finish))
  end.

(** The calls a computation adds are all calls of [standard_ExecutorStart]
    or [standard_ExecutorEnd]. *)
Definition is_standard_call (c : Call) : bool :=
  match c with
  | C_standard_ExecutorStart _ | C_standard_ExecutorEnd => true
  | _ => false
  end.

(** The text of a statement's first relation test: whether the guard of
    lines 191-199 lets a relation list through, given the sink identifier. *)
Definition first_relation_ok (oids : list Oid) (sink : Oid) : Prop :=
  match oids with
  | [] => True
  | first :: _ => first <> sink /\ first <> TypeRelationId
  end.

(** The four operations of line 189. *)
Definition is_dml (op : CmdType) : Prop :=
  op = CMD_SELECT \/ op = CMD_UPDATE \/ op = CMD_INSERT \/ op = CMD_DELETE.

(** A chain that never hits a null pointer. *)
Definition never_crashes {A} (c : M A) : Prop :=
  forall w, fst (c w) <> Crashed.

(** *** The steps of [log_InRelation], one by one

    The calls [log_InRelation] makes after the connection steps, and the
    history each SPI answer is asked with. *)

Definition prepare_call (g : Globals) : Call :=
  C_SPI_prepare (generate_insert_log_query g) 4
    [TEXTOID; TEXTOID; FLOAT8OID; TEXTOID].

Definition execute_call (g : Globals) (es : ExplainState)
    (queryDesc : QueryDesc) (instr : Instrumentation) : Call :=
  C_SPI_execute_plan (generate_insert_log_query g)
    (fst (log_record g es queryDesc instr))
    (snd (log_record g es queryDesc instr)) false 1.

(** [SPI_connect] is called unless the connection depth is above the
    execution depth; it is asked after the push, if there was one. *)
Definition connects (g : Globals) : bool :=
  negb (nesting_spi_level g >? nesting_level g).

Definition history_at_connect (w : World) : list Call :=
  (calls w
   ++ if nesting_spi_level (globals w) <? nesting_level (globals w)
      then [C_SPI_push] else [])%list.

Definition history_at_prepare (w : World) : list Call :=
  (calls w ++ steps_for (globals w))%list.

Definition history_at_execute (w : World) : list Call :=
  (history_at_prepare w ++ [prepare_call (globals w)])%list.

Definition history_at_finish (w : World) (es : ExplainState)
    (queryDesc : QueryDesc) (instr : Instrumentation) : list Call :=
  (history_at_execute w ++ [execute_call (globals w) es queryDesc instr])%list.

Definition connect_fails (E : Engine) (w : World) : bool :=
  connects (globals w)
  && negb (SPI_connect E (history_at_connect w) =? SPI_OK_CONNECT).

Definition prepare_fails (E : Engine) (w : World) : bool :=
  negb (SPI_prepare E (history_at_prepare w)).

Definition execute_fails (E : Engine) (w : World) : bool :=
  SPI_execute_plan E (history_at_execute w) <=? 0.

Definition finish_fails (E : Engine) (w : World) (es : ExplainState)
    (queryDesc : QueryDesc) (instr : Instrumentation) : bool :=
  negb (SPI_finish E (history_at_finish w es queryDesc instr)
        =? SPI_OK_FINISH).

Definition count_call (c : Call -> bool) (cs : list Call) : nat :=
  length (filter (fun x => c x = true) cs).

Definition is_SPI_connect (c : Call) : bool :=
  match c with C_SPI_connect => true | _ => false end.

Definition is_SPI_finish (c : Call) : bool :=
  match c with C_SPI_finish => true | _ => false end.

(** [demo_engine] with the given answers of [SPI_connect], [SPI_prepare],
    [SPI_execute_plan], [SPI_execute] and [SPI_finish]. *)
Definition demo_engine_answering (connect : Z) (prepare : bool)
    (execute_plan execute finish : Z) : Engine :=
  {| get_namespace_oid := get_namespace_oid demo_engine;
     get_relname_relid := get_relname_relid demo_engine;
     ExplainBeginOutput := ExplainBeginOutput demo_engine;
     ExplainPrintPlan := ExplainPrintPlan demo_engine;
     ExplainPrintTriggers := ExplainPrintTriggers demo_engine;
     ExplainEndOutput := ExplainEndOutput demo_engine;
     InstrEndLoop := InstrEndLoop demo_engine;
     SPI_connect := fun _ => connect;
     SPI_prepare := fun _ => prepare;
     SPI_execute_plan := fun _ => execute_plan;
     SPI_execute := fun _ => execute;
     SPI_finish := fun _ => finish |}.

(** [silent_from low c depth]: started with nested logging off, at an
    execution depth of at least [low] that leaves room for [depth] more
    levels in a C [int], the computation [c] does not crash, leaves the
    globals as they were, and calls nothing but the standard start and end
    routines. *)
Definition silent_from (low : Z) {A} (c : M A) (depth : nat) : Prop :=
  forall w,
    qflash_log_nested (globals w) = false ->
    low <= nesting_level (globals w) ->
    nesting_level (globals w) + Z.of_nat depth < 2 ^ 31 ->
    fst (c w) <> Crashed
    /\ globals (snd (c w)) = globals w
    /\ exists extra,
         calls (snd (c w)) = (calls w ++ extra)%list
         /\ forallb is_standard_call extra = true.

(** [silent_at g c]: started with the globals [g], after any calls, the
    computation [c] does not crash, leaves the globals as they were, and
    calls nothing but the standard start and end routines. *)
Definition silent_at (g : Globals) {A} (c : M A) : Prop :=
  forall cs,
    let r := c {| globals := g; calls := cs |} in
    fst r <> Crashed
    /\ globals (snd r) = g
    /\ exists extra,
         calls (snd r) = (cs ++ extra)%list
         /\ forallb is_standard_call extra = true.

(** What [SPI_execute_plan] runs when the end hook logs the query. *)
Definition logging_of (q : Query) : Activity :=
  match q with
  | Q _ _ _ _ logging _ => logging
  end.

(** A statement on the relation [sink]: its relation list starts with
    [sink], and the executor hands the planned statement to the end hook as
    it got it. *)
Definition on_sink_query (sink : Oid) (q : Query) : Prop :=
  match q with
  | Q queryDesc _ _ _ _ measured =>
      head (relationOids (plannedstmt queryDesc)) = Some sink
      /\ forall d, plannedstmt (measured d) = plannedstmt d
  end.

(** Every statement that the activity runs at its own level is a statement
    on [sink]; what these statements run inside is left open. *)
Fixpoint on_sink (sink : Oid) (a : Activity) : Prop :=
  match a with
  | A_return => True
  | A_error _ => True
  | A_query q rest => on_sink_query sink q /\ on_sink sink rest
  | A_catch body rest => on_sink sink body /\ on_sink sink rest
  end.

(** The counter as a delegate finds it inside the run or the finish hook,
    and as the hook leaves it: one up, one down, nothing else touched. *)
Definition other_globals (g : Globals) :=
  (qflash_enabled_status g, qflash_log_min_duration g, qflash_log_hash g,
   qflash_log_rel_name g, qflash_log_namespace_name g,
   qflash_log_namespace_oid g, qflash_log_rel_oid g, qflash_log_nested g,
   nesting_spi_level g).

Definition one_level (step : Z) (w w' : World) : Prop :=
  nesting_level (globals w') = wrap_int (nesting_level (globals w) + step)
  /\ other_globals (globals w') = other_globals (globals w)
  /\ calls w' = calls w.

(** [guarded_result delegate entered result]: [result] is what comes of
    running [delegate] from [entered] and taking the counter one down on
    the way out, by return or by error; a crash ends everything where it
    happens. *)
Definition guarded_result (delegate : M unit) (entered : World)
    (result : Outcome unit * World) : Prop :=
  match delegate entered with
  | (Returned _, w') =>
      fst result = Returned tt /\ one_level (-1) w' (snd result)
  | (Raised msg, w') =>
      fst result = Raised msg /\ one_level (-1) w' (snd result)
  | (Crashed, w') => result = (Crashed, w')
  end.

(** * Properties *)

(** ** Eligibility *)

Lemma OidIsValid_true (o : Oid) : OidIsValid o = true <-> o <> InvalidOid.
Proof.
  unfold OidIsValid. rewrite negb_true_iff, Z.eqb_neq. reflexivity.
Qed.

Lemma OidIsValid_false (o : Oid) : OidIsValid o = false <-> o = InvalidOid.
Proof.
  unfold OidIsValid. rewrite negb_false_iff, Z.eqb_eq. reflexivity.
Qed.

Section EligibilityFacts.

Variable E : Engine.

(** A cached relation identifier is returned as it is. *)
Lemma get_qflash_log_rel_oid_cached (g : Globals) :
  OidIsValid (qflash_log_rel_oid g) = true ->
  get_qflash_log_rel_oid E g = (qflash_log_rel_oid g, g).
Proof.
  intros Hv. unfold get_qflash_log_rel_oid. rewrite Hv. reflexivity.
Qed.

(** Each setter stores at most the identifier it looks up. *)
Lemma set_qflash_namespace_oid_snd (name : string) (g : Globals) :
  snd (set_qflash_namespace_oid E name g) =
  if (String.length name =? 0)%nat then g
  else with_namespace_oid (get_namespace_oid E name) g.
Proof.
  unfold set_qflash_namespace_oid.
  destruct (String.length name =? 0)%nat; [reflexivity|].
  destruct (negb _); reflexivity.
Qed.

Lemma set_qflash_relname_oid_snd (name : string) (g : Globals) :
  snd (set_qflash_relname_oid E name g) =
  if negb (OidIsValid (qflash_log_namespace_oid g))
     || (String.length name =? 0)%nat
  then g
  else with_rel_oid (get_relname_relid E name (qflash_log_namespace_oid g)) g.
Proof.
  unfold set_qflash_relname_oid.
  destruct (_ || _); [reflexivity|].
  destruct (negb _); reflexivity.
Qed.

(** Without a cached relation identifier, a valid result means that the
    lookup has left a valid namespace identifier and the relation found
    under it. *)
Lemma get_qflash_log_rel_oid_fresh (g : Globals) :
  OidIsValid (qflash_log_rel_oid g) = false ->
  OidIsValid (fst (get_qflash_log_rel_oid E g)) = true ->
  let g' := snd (get_qflash_log_rel_oid E g) in
  OidIsValid (qflash_log_namespace_oid g') = true
  /\ qflash_log_rel_oid g' =
       get_relname_relid E (qflash_log_rel_name g) (qflash_log_namespace_oid g').
Proof.
  intros Hc. unfold get_qflash_log_rel_oid. rewrite Hc. cbn [negb fst snd].
  rewrite set_qflash_relname_oid_snd, set_qflash_namespace_oid_snd.
  destruct (String.length (qflash_log_namespace_name g) =? 0)%nat.
  - destruct (OidIsValid (qflash_log_namespace_oid g)) eqn:Hn; cbn [negb orb].
    + destruct (String.length (qflash_log_rel_name g) =? 0)%nat; cbn.
      * rewrite Hc. discriminate.
      * auto.
    + rewrite Hc. discriminate.
  - cbn [with_namespace_oid qflash_log_namespace_oid qflash_log_rel_name].
    destruct (OidIsValid (get_namespace_oid E _)) eqn:Hn; cbn [negb orb].
    + destruct (String.length (qflash_log_rel_name g) =? 0)%nat; cbn.
      * rewrite Hc. discriminate.
      * auto.
    + cbn. rewrite Hc. discriminate.
Qed.

(** The lookup writes the two identifiers and nothing else. *)
Lemma get_qflash_log_rel_oid_frame (g : Globals) :
  let g' := snd (get_qflash_log_rel_oid E g) in
  qflash_enabled_status g' = qflash_enabled_status g
  /\ qflash_log_min_duration g' = qflash_log_min_duration g
  /\ qflash_log_hash g' = qflash_log_hash g
  /\ qflash_log_rel_name g' = qflash_log_rel_name g
  /\ qflash_log_namespace_name g' = qflash_log_namespace_name g
  /\ qflash_log_nested g' = qflash_log_nested g
  /\ nesting_level g' = nesting_level g
  /\ nesting_spi_level g' = nesting_spi_level g.
Proof.
  unfold get_qflash_log_rel_oid. cbn [snd].
  destruct (negb (OidIsValid (qflash_log_rel_oid g))); [|tauto].
  rewrite set_qflash_relname_oid_snd, set_qflash_namespace_oid_snd.
  destruct (String.length (qflash_log_namespace_name g) =? 0)%nat;
    destruct (_ || _); cbn; tauto.
Qed.

(** What a positive answer of [qflash_enabled] rests on, operand by
    operand of the conjunction at lines 185-200. *)
Lemma qflash_enabled_true (queryDesc : QueryDesc) (g g' : Globals) :
  qflash_enabled E queryDesc g = (true, g') ->
  qflash_enabled_status g = true
  /\ ((nesting_level g =? 0) || qflash_log_nested g = true)
  /\ g' = snd (get_qflash_log_rel_oid E g)
  /\ OidIsValid (qflash_log_rel_oid g') = true
  /\ (CmdType_eqb (operation queryDesc) CMD_SELECT
      || CmdType_eqb (operation queryDesc) CMD_UPDATE
      || CmdType_eqb (operation queryDesc) CMD_INSERT
      || CmdType_eqb (operation queryDesc) CMD_DELETE = true)
  /\ recursion_guard (relationOids (plannedstmt queryDesc)) g' = true.
Proof.
  unfold qflash_enabled.
  destruct (qflash_enabled_status g); cbn [negb]; [|discriminate].
  destruct ((nesting_level g =? 0) || qflash_log_nested g); cbn [negb];
    [|discriminate].
  destruct (get_qflash_log_rel_oid E g) as [oid g1] eqn:Hget.
  assert (Hoid : oid = qflash_log_rel_oid g1).
  { unfold get_qflash_log_rel_oid in Hget. inversion Hget. reflexivity. }
  destruct (oid =? InvalidOid) eqn:Hi; cbn [negb]; [discriminate|].
  destruct (_ || _ || _ || _); cbn [negb]; [|discriminate].
  intros H. inversion H; subst g'. rewrite H1.
  repeat split; try reflexivity.
  unfold OidIsValid. rewrite <- Hoid, Hi. reflexivity.
Qed.

(** The answer leaves the depth counters alone. *)
Lemma qflash_enabled_frame (queryDesc : QueryDesc) (g : Globals) :
  let g' := snd (qflash_enabled E queryDesc g) in
  nesting_level g' = nesting_level g
  /\ nesting_spi_level g' = nesting_spi_level g
  /\ qflash_log_min_duration g' = qflash_log_min_duration g
  /\ qflash_log_hash g' = qflash_log_hash g.
Proof.
  unfold qflash_enabled.
  destruct (qflash_enabled_status g); cbn [negb]; [|cbn; tauto].
  destruct ((nesting_level g =? 0) || qflash_log_nested g); cbn [negb];
    [|cbn; tauto].
  pose proof (get_qflash_log_rel_oid_frame g) as Hf. cbn zeta in Hf.
  destruct (get_qflash_log_rel_oid E g) as [oid g1]. cbn [snd] in Hf.
  destruct (negb (negb _)); [cbn; tauto|].
  destruct (negb _); cbn; tauto.
Qed.

End EligibilityFacts.

(** ** binary64 comparisons *)



(** ** Running the hooks *)

Ltac run_step :=
  unfold bind, ret, call, answer, get_globals, set_globals, on_globals,
    elog_ERROR, crash, PG_TRY, PG_RE_THROW;
  cbn [globals calls fst snd].

Lemma with_nesting_spi_level_same (g : Globals) :
  with_nesting_spi_level (nesting_spi_level g) g = g.
Proof. destruct g; reflexivity. Qed.

Lemma log_records_app (cs ds : list Call) :
  log_records (cs ++ ds) = (log_records cs ++ log_records ds)%list.
Proof.
  induction cs as [|c cs IH]; [reflexivity|].
  destruct c; cbn; rewrite ?IH; reflexivity.
Qed.

Lemma connection_steps_app (cs ds : list Call) :
  connection_steps (cs ++ ds)
  = (connection_steps cs ++ connection_steps ds)%list.
Proof. unfold connection_steps. apply filter_app. Qed.

Section HookFacts.

Variable E : Engine.
Variable prev_ExecutorEnd : option (QueryDesc -> M unit).
Variable standard_ExecutorEnd : QueryDesc -> M unit.

(** The settings of lines 327-334 survive the rendering: the renderer
    only appends to [es->str]. *)
Lemma explain_output_format (es : ExplainState) (queryDesc : QueryDesc) :
  format (explain_output E es queryDesc) = format es.
Proof.
  unfold explain_output. cbn. destruct (analyze es); reflexivity.
Qed.

(** In text format the fixups are the line-break removal alone. *)
Lemma fixup_plan_text (es : ExplainState) (w : World) :
  format es = EXPLAIN_FORMAT_TEXT ->
  fixup_plan es w = (Returned (set_str (remove_last_line_break (str es)) es), w).
Proof.
  intros Hf. unfold fixup_plan. cbn [format set_str]. rewrite Hf.
  reflexivity.
Qed.

(** The paths of the end hook, whatever [SPI_execute_plan] runs. *)
Lemma explain_ExecutorEnd_running_skipped (plan_execution : M unit)
    (queryDesc : QueryDesc) (w : World) (g' : Globals) :
  qflash_enabled E queryDesc (globals w) = (false, g') ->
  explain_ExecutorEnd_running E prev_ExecutorEnd standard_ExecutorEnd
    plan_execution queryDesc w
  = ExecutorEnd_chain prev_ExecutorEnd standard_ExecutorEnd queryDesc
      {| globals := g'; calls := calls w |}.
Proof.
  intros He. unfold explain_ExecutorEnd_running. run_step. rewrite He.
  reflexivity.
Qed.

Lemma explain_ExecutorEnd_running_null (plan_execution : M unit)
    (queryDesc : QueryDesc) (w : World) (g' : Globals) :
  qflash_enabled E queryDesc (globals w) = (true, g') ->
  totaltime queryDesc = None ->
  explain_ExecutorEnd_running E prev_ExecutorEnd standard_ExecutorEnd
    plan_execution queryDesc w
  = (Crashed, {| globals := g'; calls := calls w ++ [C_InstrEndLoop] |}).
Proof.
  intros He Ht. unfold explain_ExecutorEnd_running. run_step.
  rewrite He, Ht. reflexivity.
Qed.

Lemma explain_ExecutorEnd_running_fast (plan_execution : M unit)
    (queryDesc : QueryDesc) (w : World) (g' : Globals)
    (instr : Instrumentation) :
  qflash_enabled E queryDesc (globals w) = (true, g') ->
  totaltime queryDesc = Some instr ->
  (total (InstrEndLoop E instr) * 1000 <=? qflash_log_min_duration g')%float
    = true ->
  explain_ExecutorEnd_running E prev_ExecutorEnd standard_ExecutorEnd
    plan_execution queryDesc w
  = (Returned tt, {| globals := g'; calls := calls w ++ [C_InstrEndLoop] |}).
Proof.
  intros He Ht Hd. unfold explain_ExecutorEnd_running. run_step.
  rewrite He, Ht. run_step. rewrite Hd. reflexivity.
Qed.

Lemma explain_ExecutorEnd_running_slow (plan_execution : M unit)
    (queryDesc : QueryDesc) (w : World) (g' : Globals)
    (instr : Instrumentation) :
  qflash_enabled E queryDesc (globals w) = (true, g') ->
  totaltime queryDesc = Some instr ->
  (total (InstrEndLoop E instr) * 1000 <=? qflash_log_min_duration g')%float
    = false ->
  let queryDesc' := set_totaltime (Some (InstrEndLoop E instr)) queryDesc in
  explain_ExecutorEnd_running E prev_ExecutorEnd standard_ExecutorEnd
    plan_execution queryDesc w
  = (log_InRelation_running E plan_execution (logged_plan E queryDesc')
       queryDesc';;
     call C_pfree;;
     ExecutorEnd_chain prev_ExecutorEnd standard_ExecutorEnd queryDesc')
      {| globals := g'; calls := calls w ++ [C_InstrEndLoop] |}.
Proof.
  intros He Ht Hd queryDesc'. unfold explain_ExecutorEnd_running.
  unfold bind at 1. unfold on_globals. rewrite He.
  unfold bind at 1. unfold call at 1. cbn [globals calls]. rewrite Ht.
  unfold bind at 1. unfold get_globals at 1. cbn [globals calls].
  rewrite Hd.
  unfold bind at 1.
  rewrite fixup_plan_text
    by (rewrite explain_output_format; reflexivity).
  reflexivity.
Qed.

Lemma explain_ExecutorEnd_skipped (queryDesc : QueryDesc) (w : World)
    (g' : Globals) :
  qflash_enabled E queryDesc (globals w) = (false, g') ->
  explain_ExecutorEnd E prev_ExecutorEnd standard_ExecutorEnd queryDesc w
  = ExecutorEnd_chain prev_ExecutorEnd standard_ExecutorEnd queryDesc
      {| globals := g'; calls := calls w |}.
Proof. apply explain_ExecutorEnd_running_skipped. Qed.

Lemma explain_ExecutorEnd_fast (queryDesc : QueryDesc) (w : World)
    (g' : Globals) (instr : Instrumentation) :
  qflash_enabled E queryDesc (globals w) = (true, g') ->
  totaltime queryDesc = Some instr ->
  (total (InstrEndLoop E instr) * 1000 <=? qflash_log_min_duration g')%float
    = true ->
  explain_ExecutorEnd E prev_ExecutorEnd standard_ExecutorEnd queryDesc w
  = (Returned tt, {| globals := g'; calls := calls w ++ [C_InstrEndLoop] |}).
Proof. apply explain_ExecutorEnd_running_fast. Qed.

Lemma explain_ExecutorEnd_slow (queryDesc : QueryDesc) (w : World)
    (g' : Globals) (instr : Instrumentation) :
  qflash_enabled E queryDesc (globals w) = (true, g') ->
  totaltime queryDesc = Some instr ->
  (total (InstrEndLoop E instr) * 1000 <=? qflash_log_min_duration g')%float
    = false ->
  let queryDesc' := set_totaltime (Some (InstrEndLoop E instr)) queryDesc in
  explain_ExecutorEnd E prev_ExecutorEnd standard_ExecutorEnd queryDesc w
  = (log_InRelation E (logged_plan E queryDesc') queryDesc';;
     call C_pfree;;
     ExecutorEnd_chain prev_ExecutorEnd standard_ExecutorEnd queryDesc')
      {| globals := g'; calls := calls w ++ [C_InstrEndLoop] |}.
Proof. apply explain_ExecutorEnd_running_slow. Qed.

End HookFacts.

(** ** Persisting one record *)

Section PersistenceFacts.

Variable E : Engine.

Ltac split_answers :=
  repeat match goal with
         | |- context [if ?b then _ else _] => destruct b eqn:?; run_step
         end.

(** Whatever SPI answers, the depths agree afterwards and the connection
    steps are those of [steps_for]. *)
Lemma log_InRelation_steps (es : ExplainState) (queryDesc : QueryDesc)
    (instr : Instrumentation) (w : World) :
  totaltime queryDesc = Some instr ->
  let w' := snd (log_InRelation E es queryDesc w) in
  globals w' = with_nesting_spi_level (nesting_level (globals w)) (globals w)
  /\ connection_steps (calls w')
     = (connection_steps (calls w) ++ steps_for (globals w))%list.
Proof.
  intros Ht. unfold log_InRelation, log_InRelation_running, connect_at_depth,
    steps_for. rewrite Ht.
  destruct w as [g cs]. run_step.
  destruct (nesting_spi_level g <? nesting_level g) eqn:Hlt; run_step.
  - cbn [with_nesting_spi_level nesting_spi_level nesting_level].
    assert (Hgt : (nesting_level g >? nesting_level g) = false)
      by (rewrite Z.gtb_ltb; apply Z.ltb_irrefl).
    rewrite Hgt. run_step.
    split_answers; cbn [snd globals calls];
      (split; [destruct g; reflexivity|]);
      rewrite <- ?app_assoc, !connection_steps_app; cbn;
      rewrite ?app_nil_r; reflexivity.
  - destruct (nesting_spi_level g >? nesting_level g) eqn:Hgt; run_step.
    + split_answers; cbn [snd globals calls]; (split; [reflexivity|]);
        rewrite <- ?app_assoc, !connection_steps_app; cbn;
        rewrite ?app_nil_r; reflexivity.
    + assert (Heq : nesting_level g = nesting_spi_level g)
        by (rewrite Z.gtb_ltb in Hgt; apply Z.ltb_ge in Hlt, Hgt; lia).
      rewrite Heq, with_nesting_spi_level_same.
      split_answers; cbn [snd globals calls]; (split; [reflexivity|]);
        rewrite <- ?app_assoc, !connection_steps_app; cbn;
        rewrite ?app_nil_r; reflexivity.
Qed.



End PersistenceFacts.

(** ** The eligibility decision *)

Lemma CmdType_eqb_eq (a b : CmdType) : CmdType_eqb a b = true <-> a = b.
Proof. destruct a, b; cbn; split; congruence. Qed.

(** When the first relation of the statement is the sink as the lookup
    leaves it, the statement is not eligible. *)
Lemma qflash_enabled_sink_first (E : Engine) (queryDesc : QueryDesc)
    (g : Globals) (rest : list Oid) :
  relationOids (plannedstmt queryDesc)
  = qflash_log_rel_oid (snd (get_qflash_log_rel_oid E g)) :: rest ->
  fst (qflash_enabled E queryDesc g) = false.
Proof.
  intros Hoids.
  destruct (qflash_enabled E queryDesc g) as [[|] g'] eqn:He; [|reflexivity].
  apply qflash_enabled_true in He as (_ & _ & Hg' & _ & _ & Hguard).
  rewrite Hoids, <- Hg' in Hguard. cbn in Hguard.
  rewrite Z.eqb_refl in Hguard. cbn in Hguard.
  rewrite andb_false_r in Hguard. discriminate.
Qed.




(** C1 (amended).  The guard looks at the first relation of the statement
    only: an eligible statement with a non-empty relation list has a first
    relation that is neither the sink nor [pg_type]; with an empty list the
    four conditions before the guard decide; and for a statement whose first
    relation is the sink the end hook goes straight to the rest of the
    chain, no call made, no row handed to SPI. *)
Theorem recursion_guard_first_relation (E : Engine)
    (prev_ExecutorEnd : option (QueryDesc -> M unit))
    (standard_ExecutorEnd : QueryDesc -> M unit)
    (queryDesc : QueryDesc) (w : World) :
  (forall g' first rest,
      qflash_enabled E queryDesc (globals w) = (true, g') ->
      relationOids (plannedstmt queryDesc) = first :: rest ->
      first <> qflash_log_rel_oid g' /\ first <> TypeRelationId)
  /\ (relationOids (plannedstmt queryDesc) = [] ->
      qflash_enabled_status (globals w) = true ->
      nesting_level (globals w) = 0 \/ qflash_log_nested (globals w) = true ->
      OidIsValid (fst (get_qflash_log_rel_oid E (globals w))) = true ->
      operation queryDesc = CMD_SELECT \/ operation queryDesc = CMD_INSERT
      \/ operation queryDesc = CMD_UPDATE \/ operation queryDesc = CMD_DELETE ->
      fst (qflash_enabled E queryDesc (globals w)) = true)
  /\ (forall rest,
      relationOids (plannedstmt queryDesc)
      = qflash_log_rel_oid (snd (get_qflash_log_rel_oid E (globals w))) :: rest ->
      exists w',
        explain_ExecutorEnd E prev_ExecutorEnd standard_ExecutorEnd queryDesc w
        = ExecutorEnd_chain prev_ExecutorEnd standard_ExecutorEnd queryDesc w'
        /\ calls w' = calls w).
Proof.
  split; [|split].
  - intros g' first rest He Hoids.
    apply qflash_enabled_true in He as (_ & _ & _ & _ & _ & Hguard).
    rewrite Hoids in Hguard. cbn in Hguard.
    rewrite !andb_true_iff, !negb_true_iff, !Z.eqb_neq in Hguard. tauto.
  - intros Hoids Hs Hd Hv Hop. unfold qflash_enabled.
    rewrite Hs. cbn [negb].
    assert (Hd' : (nesting_level (globals w) =? 0)
                  || qflash_log_nested (globals w) = true).
    { apply orb_true_iff. destruct Hd as [Hd|Hd];
        [left; apply Z.eqb_eq, Hd|right; exact Hd]. }
    rewrite Hd'. cbn [negb].
    destruct (get_qflash_log_rel_oid E (globals w)) as [oid g1].
    cbn [fst] in Hv. unfold OidIsValid in Hv. rewrite Hv. cbn [negb].
    assert (Hop' : CmdType_eqb (operation queryDesc) CMD_SELECT
                   || CmdType_eqb (operation queryDesc) CMD_UPDATE
                   || CmdType_eqb (operation queryDesc) CMD_INSERT
                   || CmdType_eqb (operation queryDesc) CMD_DELETE = true).
    { rewrite !orb_true_iff, !CmdType_eqb_eq. tauto. }
    rewrite Hop', Hoids. reflexivity.
  - intros rest Hoids.
    pose proof (qflash_enabled_sink_first E queryDesc (globals w) rest Hoids)
      as Hno.
    destruct (qflash_enabled E queryDesc (globals w)) as [b g'] eqn:He.
    cbn [fst] in Hno. subst b.
    exists {| globals := g'; calls := calls w |}. split; [|reflexivity].
    apply explain_ExecutorEnd_skipped. exact He.
Qed.

Lemma recursion_guard_first_relation_witness :
  (16390 <> 16384 /\ 16390 <> TypeRelationId)
  /\ fst (qflash_enabled demo_engine (demo_query CMD_SELECT [] 0.5%float)
            demo_resolved) = true
  /\ exists w',
       explain_ExecutorEnd demo_engine None standard_ExecutorEnd
         (demo_query CMD_SELECT [16384; 16390] 0.5%float)
         (demo_world demo_resolved)
       = ExecutorEnd_chain None standard_ExecutorEnd
           (demo_query CMD_SELECT [16384; 16390] 0.5%float) w'
       /\ calls w' = [].
Proof.
  split; [|split].
  - destruct (recursion_guard_first_relation demo_engine None
                standard_ExecutorEnd
                (demo_query CMD_SELECT [16390; 16384] 0.5%float)
                (demo_world demo_resolved)) as (H & _ & _).
    apply (H demo_resolved 16390 [16384]); vm_compute; reflexivity.
  - destruct (recursion_guard_first_relation demo_engine None
                standard_ExecutorEnd (demo_query CMD_SELECT [] 0.5%float)
                (demo_world demo_resolved)) as (_ & H & _).
    apply H; try (vm_compute; reflexivity); left; reflexivity.
  - destruct (recursion_guard_first_relation demo_engine None
                standard_ExecutorEnd
                (demo_query CMD_SELECT [16384; 16390] 0.5%float)
                (demo_world demo_resolved)) as (_ & _ & H).
    apply (H [16390]). vm_compute. reflexivity.
Defined.

(** C1 as stated fails for a select that joins [orders] with the sink: the
    sink is among its relations, second in the list; the statement is
    eligible and its end hook hands one row to SPI. *)
Lemma sink_touched_yet_logged :
  let queryDesc := demo_query CMD_SELECT [16390; 16384] 0.5%float in
  In (qflash_log_rel_oid demo_resolved) (relationOids (plannedstmt queryDesc))
  /\ qflash_enabled demo_engine queryDesc demo_resolved = (true, demo_resolved)
  /\ log_records
       (calls (snd (explain_ExecutorEnd demo_engine None standard_ExecutorEnd
                      queryDesc (demo_world demo_resolved))))
     = [([TextDatum "select 1"; TextDatum "Seq Scan on public.orders";
          Float8Datum 500%float; TextDatum "t1"],
         [" "%char; " "%char; " "%char; " "%char])].
Proof.
  cbv zeta. split; [right; left; reflexivity|].
  split; vm_compute; reflexivity.
Qed.

(** ** The end hook *)

(** C2, at the failing input: a select over [orders] that ran for 62.5 ms
    under a threshold of 100 ms.  The hook returns after [InstrEndLoop];
    the rest of the chain, here the standard routine that would log
    [C_standard_ExecutorEnd], is not called. *)
Theorem explain_ExecutorEnd_early_return :
  let w := demo_world (with_min_duration 100%float demo_resolved) in
  let queryDesc := demo_query CMD_SELECT [16390] 0.0625%float in
  explain_ExecutorEnd demo_engine None standard_ExecutorEnd queryDesc w
  = (Returned tt,
     {| globals := globals w; calls := [C_InstrEndLoop] |})
  /\ ~ In C_standard_ExecutorEnd
         (calls (snd (explain_ExecutorEnd demo_engine None
                        standard_ExecutorEnd queryDesc w))).
Proof.
  cbv zeta. split; [vm_compute; reflexivity|].
  vm_compute. intros [H|[]]. discriminate H.
Qed.




(** C10.  Whenever the end hook logs, the plan was rendered with the
    format set to text, the fixups are the line-break removal alone, and
    the text handed to [log_InRelation] is the renderer's output without its
    last line break: the brace-rewriting branch is not taken. *)
Theorem plan_logged_as_text (E : Engine)
    (prev_ExecutorEnd : option (QueryDesc -> M unit))
    (standard_ExecutorEnd : QueryDesc -> M unit)
    (queryDesc : QueryDesc) (instr : Instrumentation) (w : World)
    (g' : Globals) :
  qflash_enabled E queryDesc (globals w) = (true, g') ->
  totaltime queryDesc = Some instr ->
  (total (InstrEndLoop E instr) * 1000 <=? qflash_log_min_duration g')%float
    = false ->
  let queryDesc' := set_totaltime (Some (InstrEndLoop E instr)) queryDesc in
  let es := explain_output E plan_settings queryDesc' in
  format plan_settings = EXPLAIN_FORMAT_TEXT
  /\ format es = EXPLAIN_FORMAT_TEXT
  /\ (forall w0,
         fixup_plan es w0
         = (Returned (set_str (remove_last_line_break (str es)) es), w0))
  /\ str (logged_plan E queryDesc') = remove_last_line_break (str es)
  /\ explain_ExecutorEnd E prev_ExecutorEnd standard_ExecutorEnd queryDesc w
     = (log_InRelation E (logged_plan E queryDesc') queryDesc';;
        call C_pfree;;
        ExecutorEnd_chain prev_ExecutorEnd standard_ExecutorEnd queryDesc')
         {| globals := g'; calls := calls w ++ [C_InstrEndLoop] |}.
Proof.
  intros He Ht Hd queryDesc' es.
  assert (Hf : format es = EXPLAIN_FORMAT_TEXT)
    by (unfold es; rewrite explain_output_format; reflexivity).
  split; [reflexivity|]. split; [exact Hf|]. split.
  - intros w0. apply fixup_plan_text. exact Hf.
  - split; [reflexivity|].
    apply (explain_ExecutorEnd_slow E _ _ queryDesc w g' instr He Ht Hd).
Qed.

Lemma plan_logged_as_text_witness :
  str (logged_plan demo_engine (demo_query CMD_SELECT [16390] 0.5%float))
  = list_ascii_of_string "Seq Scan on public.orders".
Proof.
  destruct (plan_logged_as_text demo_engine None standard_ExecutorEnd
              (demo_query CMD_SELECT [16390] 0.5%float)
              {| total := 0.5%float |} (demo_world demo_resolved)
              demo_resolved) as (_ & _ & _ & H & _);
    [vm_compute; reflexivity|reflexivity|vm_compute; reflexivity|].
  etransitivity; [exact H|]. vm_compute. reflexivity.
Defined.

(** ** The connection protocol of [log_InRelation] *)

Lemma connect_at_depth_steps (E : Engine) (w : World) :
  let w' := snd (connect_at_depth E w) in
  globals w' = with_nesting_spi_level (nesting_level (globals w)) (globals w)
  /\ calls w' = (calls w ++ steps_for (globals w))%list.
Proof.
  unfold connect_at_depth, steps_for. destruct w as [g cs]. run_step.
  destruct (nesting_spi_level g <? nesting_level g) eqn:Hlt; run_step.
  - cbn [with_nesting_spi_level nesting_spi_level nesting_level].
    assert (Hgt : (nesting_level g >? nesting_level g) = false)
      by (rewrite Z.gtb_ltb; apply Z.ltb_irrefl).
    rewrite Hgt. run_step.
    destruct (negb _); run_step;
      (split; [destruct g; reflexivity|]);
      rewrite <- app_assoc; reflexivity.
  - destruct (nesting_spi_level g >? nesting_level g) eqn:Hgt; run_step.
    + split; reflexivity.
    + assert (Heq : nesting_level g = nesting_spi_level g)
        by (rewrite Z.gtb_ltb in Hgt; apply Z.ltb_ge in Hlt, Hgt; lia).
      rewrite Heq, with_nesting_spi_level_same.
      destruct (negb _); run_step; split; reflexivity.
Qed.

(** C6 (amended).  On every call the steps of lines 382-397 are decided by
    the two depths found, and leave the connection depth equal to the
    execution depth, which they do not change: deeper than the connection
    depth, [SPI_push] and then [SPI_connect] as well; shallower, [SPI_pop]
    and no [SPI_connect]; equal, [SPI_connect] alone.  The rest of
    [log_InRelation] adds no connection step and leaves the depths as they
    are. *)
Theorem connection_depth_protocol (E : Engine) (es : ExplainState)
    (queryDesc : QueryDesc) (instr : Instrumentation) (w : World) :
  totaltime queryDesc = Some instr ->
  let g := globals w in
  let w' := snd (connect_at_depth E w) in
  let w'' := snd (log_InRelation E es queryDesc w) in
  nesting_spi_level (globals w') = nesting_level (globals w')
  /\ nesting_level (globals w') = nesting_level g
  /\ (nesting_level g > nesting_spi_level g ->
      calls w' = (calls w ++ [C_SPI_push; C_SPI_connect])%list)
  /\ (nesting_level g < nesting_spi_level g ->
      calls w' = (calls w ++ [C_SPI_pop])%list)
  /\ (nesting_level g = nesting_spi_level g ->
      calls w' = (calls w ++ [C_SPI_connect])%list)
  /\ globals w'' = globals w'
  /\ connection_steps (calls w'') = connection_steps (calls w').
Proof.
  intros Ht g w' w''.
  destruct (connect_at_depth_steps E w) as [Hg Hs].
  destruct (log_InRelation_steps E es queryDesc instr w Ht) as [Hg2 Hs2].
  fold w' in Hg, Hs. fold w'' in Hg2, Hs2. fold g in Hg, Hs, Hg2, Hs2.
  split; [rewrite Hg; reflexivity|]. split; [rewrite Hg; reflexivity|].
  assert (Hcases :
            (nesting_level g > nesting_spi_level g ->
             steps_for g = [C_SPI_push; C_SPI_connect])
            /\ (nesting_level g < nesting_spi_level g ->
                steps_for g = [C_SPI_pop])
            /\ (nesting_level g = nesting_spi_level g ->
                steps_for g = [C_SPI_connect])).
  { unfold steps_for. split; [|split]; intros Hcmp.
    - assert (H : (nesting_spi_level g <? nesting_level g) = true)
        by (apply Z.ltb_lt; lia).
      rewrite H. reflexivity.
    - assert (H1 : (nesting_spi_level g <? nesting_level g) = false)
        by (apply Z.ltb_ge; lia).
      assert (H2 : (nesting_spi_level g >? nesting_level g) = true)
        by (rewrite Z.gtb_ltb; apply Z.ltb_lt; lia).
      rewrite H1, H2. reflexivity.
    - assert (H1 : (nesting_spi_level g <? nesting_level g) = false)
        by (apply Z.ltb_ge; lia).
      assert (H2 : (nesting_spi_level g >? nesting_level g) = false)
        by (rewrite Z.gtb_ltb; apply Z.ltb_ge; lia).
      rewrite H1, H2. reflexivity. }
  destruct Hcases as (Hpush & Hpop & Hconn).
  split; [intros Hc; rewrite Hs, (Hpush Hc); reflexivity|].
  split; [intros Hc; rewrite Hs, (Hpop Hc); reflexivity|].
  split; [intros Hc; rewrite Hs, (Hconn Hc); reflexivity|].
  split; [rewrite Hg, Hg2; reflexivity|].
  rewrite Hs2, Hs, connection_steps_app. f_equal.
  unfold steps_for.
  destruct (_ <? _); [reflexivity|]. destruct (_ >? _); reflexivity.
Qed.

Lemma connection_depth_protocol_witness :
  let w := demo_world (with_nesting_spi_level 1 demo_resolved) in
  let w' := snd (connect_at_depth demo_engine w) in
  nesting_spi_level (globals w') = 0
  /\ calls w' = [C_SPI_pop].
Proof.
  cbv zeta.
  destruct (connection_depth_protocol demo_engine NewExplainState
              (demo_query CMD_SELECT [16390] 0.5%float)
              {| total := 0.5%float |}
              (demo_world (with_nesting_spi_level 1 demo_resolved)) eq_refl)
    as (H1 & H2 & _ & H4 & _).
  split.
  - rewrite H1, H2. reflexivity.
  - apply H4. vm_compute. reflexivity.
Defined.

(** C6 as stated fails one level down: at execution depth 1 with the
    connection depth still 0, the call both pushes and connects. *)
Lemma push_then_connect :
  let w := demo_world (with_nesting_level 1 demo_resolved) in
  calls (snd (connect_at_depth demo_engine w)) = [C_SPI_push; C_SPI_connect]
  /\ connection_steps
       (calls (snd (log_InRelation demo_engine NewExplainState
                      (demo_query CMD_SELECT [16390] 0.5%float) w)))
     = [C_SPI_push; C_SPI_connect].
Proof. split; vm_compute; reflexivity. Qed.

(** ** The cached sink identifiers *)

Section SinkIdentifiers.

Variable E : Engine.

Lemma get_qflash_log_rel_oid_consistent (g : Globals) :
  sink_ids_consistent g ->
  sink_ids_consistent (snd (get_qflash_log_rel_oid E g)).
Proof.
  unfold sink_ids_consistent, get_qflash_log_rel_oid. cbn [snd].
  destruct (OidIsValid (qflash_log_rel_oid g)) eqn:Hc; cbn [negb];
    [tauto|].
  intros _. rewrite set_qflash_relname_oid_snd.
  destruct (OidIsValid (qflash_log_namespace_oid _)) eqn:Hn; cbn [negb orb].
  - destruct (String.length _ =? 0)%nat; cbn; auto.
  - rewrite set_qflash_namespace_oid_snd in *.
    destruct (String.length (qflash_log_namespace_name g) =? 0)%nat; cbn;
      rewrite Hc; discriminate.
Qed.

Lemma rel_GucCheck_consistent (newval : string) (g : Globals) :
  sink_ids_consistent g ->
  sink_ids_consistent (snd (rel_GucCheck E newval g)).
Proof.
  intros Hc. unfold rel_GucCheck.
  destruct (qflash_enabled_status g); [|exact Hc].
  pose proof (set_qflash_relname_oid_snd E newval g) as Hs.
  destruct (set_qflash_relname_oid E newval g) as [ok g1]. cbn [snd] in Hs.
  assert (Hsnd : snd (if negb ok then (false, g1) else (true, g1)) = g1)
    by (destruct ok; reflexivity).
  rewrite Hsnd, Hs.
  destruct (OidIsValid (qflash_log_namespace_oid g)) eqn:Hn; cbn [negb orb].
  - destruct (String.length newval =? 0)%nat; [exact Hc|].
    intros _. exact Hn.
  - exact Hc.
Qed.

Lemma enabled_GucAssign_consistent (newval : bool) (g : Globals) :
  sink_ids_consistent g ->
  sink_ids_consistent (enabled_GucAssign newval g).
Proof.
  unfold sink_ids_consistent, enabled_GucAssign.
  destruct newval; [tauto|]. cbn. discriminate.
Qed.

Lemma namespace_GucCheck_consistent (newval : string) (g : Globals) :
  sink_ids_consistent g ->
  fst (namespace_GucCheck E newval g) = true ->
  sink_ids_consistent (snd (namespace_GucCheck E newval g)).
Proof.
  intros Hc. unfold namespace_GucCheck, set_qflash_namespace_oid.
  destruct (qflash_enabled_status g); [|intros _; exact Hc].
  destruct (String.length newval =? 0)%nat; [discriminate|].
  cbn [with_namespace_oid qflash_log_namespace_oid].
  destruct (OidIsValid (get_namespace_oid E newval)) eqn:Hn; cbn;
    [|discriminate].
  intros _ _. exact Hn.
Qed.

End SinkIdentifiers.

(** C7 (amended).  That a valid relation identifier comes with a valid
    namespace identifier is preserved by the lazy lookup, by the check of a
    relation name, by the assignment of the enabled flag and by the check
    of a namespace name that is accepted.  A lazy lookup
    whose non-empty namespace name does not resolve leaves both identifiers
    unset; one that fails leaves the relation identifier unset, and keeps
    the namespace identifier it has resolved.  Turning the flag off
    invalidates both identifiers together, turning it on changes nothing;
    and while the flag is off the two name checks accept any name and
    change no identifier. *)
Theorem sink_identifier_cache (E : Engine) (g : Globals) (name : string)
    (newval : bool) :
  (sink_ids_consistent g ->
   sink_ids_consistent (snd (get_qflash_log_rel_oid E g))
   /\ sink_ids_consistent (snd (rel_GucCheck E name g))
   /\ sink_ids_consistent (enabled_GucAssign newval g)
   /\ (fst (namespace_GucCheck E name g) = true ->
       sink_ids_consistent (snd (namespace_GucCheck E name g))))
  /\ (OidIsValid (qflash_log_rel_oid g) = false ->
      let g' := snd (get_qflash_log_rel_oid E g) in
      (fst (get_qflash_log_rel_oid E g) = InvalidOid ->
       qflash_log_rel_oid g' = InvalidOid)
      /\ (qflash_log_namespace_name g <> "" ->
          qflash_log_namespace_oid g'
          = get_namespace_oid E (qflash_log_namespace_name g))
      /\ (qflash_log_namespace_name g <> "" ->
          get_namespace_oid E (qflash_log_namespace_name g) = InvalidOid ->
          qflash_log_namespace_oid g' = InvalidOid
          /\ qflash_log_rel_oid g' = InvalidOid))
  /\ (qflash_log_namespace_oid (enabled_GucAssign false g) = InvalidOid
      /\ qflash_log_rel_oid (enabled_GucAssign false g) = InvalidOid
      /\ enabled_GucAssign true g = g)
  /\ (qflash_enabled_status g = false ->
      namespace_GucCheck E name g = (true, g)
      /\ rel_GucCheck E name g = (true, g)).
Proof.
  split; [|split; [|split]].
  - intros Hc. split; [|split; [|split]].
    + apply get_qflash_log_rel_oid_consistent, Hc.
    + apply rel_GucCheck_consistent, Hc.
    + apply enabled_GucAssign_consistent, Hc.
    + apply namespace_GucCheck_consistent, Hc.
  - intros Hc g'.
    assert (Hns : qflash_log_namespace_name g <> "" ->
                  qflash_log_namespace_oid g'
                  = get_namespace_oid E (qflash_log_namespace_name g)).
    { intros Hne. unfold g', get_qflash_log_rel_oid. cbn [snd].
      rewrite Hc. cbn [negb].
      rewrite set_qflash_relname_oid_snd, set_qflash_namespace_oid_snd.
      destruct (qflash_log_namespace_name g) as [|c rest] eqn:Hname;
        [congruence|]. cbn [String.length Nat.eqb].
      destruct (_ || _); reflexivity. }
    split; [|split].
    + intros Hf. exact Hf.
    + exact Hns.
    + intros Hne Hfail. split; [rewrite Hns by exact Hne; exact Hfail|].
      pose proof (Hns Hne) as Hoid. rewrite Hfail in Hoid.
      destruct (OidIsValid (qflash_log_rel_oid g')) eqn:Hv.
      * pose proof (get_qflash_log_rel_oid_fresh E g Hc Hv) as [Hnv _].
        fold g' in Hnv. rewrite Hoid in Hnv. discriminate.
      * apply OidIsValid_false, Hv.
  - repeat split.
  - intros Hoff. unfold namespace_GucCheck, rel_GucCheck. rewrite Hoff.
    split; reflexivity.
Qed.

Lemma sink_identifier_cache_witness :
  sink_ids_consistent demo_resolved
  /\ qflash_log_rel_oid (snd (get_qflash_log_rel_oid demo_engine demo_missing))
     = InvalidOid
  /\ qflash_log_namespace_oid
       (snd (get_qflash_log_rel_oid demo_engine demo_missing)) = 2200
  /\ namespace_GucCheck demo_engine "nosuch" initial_globals
     = (true, initial_globals).
Proof.
  split; [|split; [|split]].
  - destruct (sink_identifier_cache demo_engine demo_globals "" true)
      as (H & _).
    apply H. intros Hv. vm_compute in Hv. discriminate Hv.
  - destruct (sink_identifier_cache demo_engine demo_missing "" true)
      as (_ & H & _).
    destruct (H eq_refl) as (H1 & _). apply H1. vm_compute. reflexivity.
  - destruct (sink_identifier_cache demo_engine demo_missing "" true)
      as (_ & H & _).
    destruct (H eq_refl) as (_ & H2 & _).
    etransitivity; [apply H2; vm_compute; discriminate|].
    vm_compute. reflexivity.
  - destruct (sink_identifier_cache demo_engine initial_globals "nosuch" true)
      as (_ & _ & _ & H).
    apply H. reflexivity.
Defined.

(** C7 as stated fails in three places.  A refused namespace name unsets
    the namespace identifier and keeps the cached relation identifier; a
    lookup that finds the schema and not the table leaves the namespace
    identifier set; and an accepted change of either name leaves both
    identifiers valid, the relation identifier of [public.qflash_log] being
    kept when the namespace becomes [audit]. *)
Lemma sink_identifiers_not_invalidated :
  (sink_ids_consistent demo_resolved
   /\ namespace_GucCheck demo_engine "nosuch" demo_resolved
      = (false, demo_refused)
   /\ ~ sink_ids_consistent demo_refused)
  /\ (fst (get_qflash_log_rel_oid demo_engine demo_missing) = InvalidOid
      /\ qflash_log_namespace_oid
           (snd (get_qflash_log_rel_oid demo_engine demo_missing)) = 2200)
  /\ (fst (namespace_GucCheck demo_engine "audit" demo_resolved) = true
      /\ qflash_log_namespace_oid
           (snd (namespace_GucCheck demo_engine "audit" demo_resolved)) = 2300
      /\ qflash_log_rel_oid
           (snd (namespace_GucCheck demo_engine "audit" demo_resolved)) = 16384)
  /\ (fst (rel_GucCheck demo_engine "orders" demo_resolved) = true
      /\ qflash_log_namespace_oid
           (snd (rel_GucCheck demo_engine "orders" demo_resolved)) = 2200
      /\ qflash_log_rel_oid
           (snd (rel_GucCheck demo_engine "orders" demo_resolved)) = 16390).
Proof.
  split; [|split; [|split]].
  - split; [intros _; vm_compute; reflexivity|].
    split; [vm_compute; reflexivity|].
    intros H. specialize (H eq_refl). vm_compute in H. discriminate H.
  - split; vm_compute; reflexivity.
  - repeat split; vm_compute; reflexivity.
  - repeat split; vm_compute; reflexivity.
Qed.

(** ** The plan text fixups *)

Lemma remove_last_line_break_unchanged (data : list ascii) :
  last data <> Some newline -> remove_last_line_break data = data.
Proof.
  intros Hlast. unfold remove_last_line_break.
  rewrite last_lookup in Hlast.
  replace (length data - 1)%nat with (Init.Nat.pred (length data)) by lia.
  destruct (data !! Init.Nat.pred (length data)) as [c|]; cbn.
  - destruct (Ascii.eqb_spec c newline) as [->|Hne];
      [congruence|]. rewrite andb_false_r. reflexivity.
  - rewrite andb_false_r. reflexivity.
Qed.

Lemma remove_last_line_break_app (data : list ascii) :
  remove_last_line_break (data ++ [newline]) = data.
Proof.
  unfold remove_last_line_break. rewrite length_app. cbn [length].
  replace (length data + 1 - 1)%nat with (length data) by lia.
  assert (Hpos : (0 <? length data + 1)%nat = true)
    by (apply Nat.ltb_lt; lia).
  rewrite Hpos, list_lookup_middle by reflexivity.
  cbn [ascii_eqb_opt andb]. rewrite Ascii.eqb_refl.
  apply take_app_length.
Qed.

(** C8.  The line-break removal takes exactly one trailing line break off
    a text that ends with one and leaves any other text as it is; the brace
    repair of a text of at least two characters puts the two braces at its
    ends and keeps its length, and repairing the repaired text again, or
    any text of at least two characters that has the two braces at its
    ends, changes nothing. *)
Theorem plan_text_fixups (data : list ascii) :
  remove_last_line_break (data ++ [newline]) = data
  /\ (last data <> Some newline -> remove_last_line_break data = data)
  /\ ((2 <= length data)%nat ->
      exists repaired,
        fix_json data = Some repaired
        /\ length repaired = length data
        /\ repaired !! 0%nat = Some lbrace
        /\ last repaired = Some rbrace
        /\ fix_json repaired = Some repaired)
  /\ ((2 <= length data)%nat ->
      data !! 0%nat = Some lbrace ->
      last data = Some rbrace ->
      fix_json data = Some data).
Proof.
  split; [apply remove_last_line_break_app|].
  split; [apply remove_last_line_break_unchanged|].
  split; cycle 1.
  { intros Hlen Hfirst Hlast. unfold fix_json.
    assert (Hnz : (length data =? 0)%nat = false) by (apply Nat.eqb_neq; lia).
    rewrite Hnz. f_equal.
    rewrite (list_insert_id data 0%nat lbrace Hfirst).
    apply list_insert_id. rewrite last_lookup in Hlast.
    replace (length data - 1)%nat with (Init.Nat.pred (length data)) by lia.
    exact Hlast. }
  intros Hlen.
  assert (Hnz : (length data =? 0)%nat = false) by (apply Nat.eqb_neq; lia).
  exists (<[(length data - 1)%nat := rbrace]> (<[0%nat := lbrace]> data)).
  unfold fix_json. rewrite Hnz.
  split; [reflexivity|].
  split; [rewrite !length_insert; reflexivity|].
  split.
  { rewrite list_lookup_insert_ne by lia.
    apply list_lookup_insert_eq. lia. }
  split.
  { rewrite last_lookup, !length_insert.
    replace (Init.Nat.pred (length data)) with (length data - 1)%nat by lia.
    apply list_lookup_insert_eq. rewrite length_insert. lia. }
  rewrite !length_insert, Hnz. f_equal.
  rewrite (list_insert_insert_ne _ 0%nat (length data - 1)%nat) by lia.
  rewrite list_insert_insert_eq.
  rewrite (list_insert_insert_eq _ 0%nat). reflexivity.
Qed.

Lemma plan_text_fixups_witness :
  remove_last_line_break (list_ascii_of_string "Result" ++ [newline])%list
  = list_ascii_of_string "Result"
  /\ remove_last_line_break (list_ascii_of_string "Result")
     = list_ascii_of_string "Result"
  /\ (exists repaired,
         fix_json (list_ascii_of_string "[x]") = Some repaired
         /\ fix_json repaired = Some repaired)
  /\ fix_json (list_ascii_of_string "{x}")
     = Some (list_ascii_of_string "{x}").
Proof.
  split; [|split; [|split]].
  - destruct (plan_text_fixups (list_ascii_of_string "Result")) as (H & _).
    exact H.
  - destruct (plan_text_fixups (list_ascii_of_string "Result"))
      as (_ & H & _).
    apply H. vm_compute. discriminate.
  - destruct (plan_text_fixups (list_ascii_of_string "[x]"))
      as (_ & _ & H & _).
    destruct H as (repaired & H1 & _ & _ & _ & H2); [cbn; lia|].
    exists repaired. split; [exact H1|exact H2].
  - destruct (plan_text_fixups (list_ascii_of_string "{x}"))
      as (_ & _ & _ & H).
    apply H; [cbn; lia|reflexivity|reflexivity].
Defined.

(** ** The sink table *)






(** ** The execution depth *)

Lemma wrap_int_range (z : Z) : int_range (wrap_int z).
Proof.
  unfold int_range, wrap_int.
  pose proof (Z.mod_pos_bound (z + 2 ^ 31) (2 ^ 32) ltac:(lia)). lia.
Qed.

(** [--] undoes [++], also across the wrap-around. *)
Lemma wrap_int_incr_decr (n : Z) :
  int_range n -> wrap_int (wrap_int (n + 1) - 1) = n.
Proof.
  unfold int_range, wrap_int. intros Hn.
  replace ((n + 1 + 2 ^ 31) mod 2 ^ 32 - 2 ^ 31 - 1 + 2 ^ 31)
    with ((n + 1 + 2 ^ 31) mod 2 ^ 32 - 1) by lia.
  rewrite Zminus_mod_idemp_l.
  replace (n + 1 + 2 ^ 31 - 1) with (n + 2 ^ 31) by lia.
  rewrite Z.mod_small by lia. lia.
Qed.

Section LevelKept.

Context {A B : Type}.

Lemma level_kept_ret (a : A) : level_kept (ret a).
Proof. intros w _. reflexivity. Qed.

Lemma level_kept_elog_ERROR (msg : string) : level_kept (@elog_ERROR A msg).
Proof. intros w _. reflexivity. Qed.

Lemma level_kept_crash : level_kept (@crash A).
Proof. intros w _. exact I. Qed.

Lemma level_kept_bind (c : M A) (k : A -> M B) :
  level_kept c -> (forall a, level_kept (k a)) -> level_kept (bind c k).
Proof.
  intros Hc Hk w Hr. unfold bind. specialize (Hc w Hr).
  destruct (c w) as [[a|msg|] w1]; [|exact Hc|exact I].
  assert (Hr1 : int_range (nesting_level (globals w1)))
    by (rewrite Hc; exact Hr).
  specialize (Hk a w1 Hr1).
  destruct (k a w1) as [[b|msg|] w2]; [| |exact I]; congruence.
Qed.

Lemma level_kept_PG_TRY (body : M A) (handler : string -> M A) :
  level_kept body -> (forall msg, level_kept (handler msg)) ->
  level_kept (PG_TRY body handler).
Proof.
  intros Hb Hh w Hr. unfold PG_TRY. specialize (Hb w Hr).
  destruct (body w) as [[a|msg|] w1]; [exact Hb| |exact I].
  assert (Hr1 : int_range (nesting_level (globals w1)))
    by (rewrite Hb; exact Hr).
  specialize (Hh msg w1 Hr1).
  destruct (handler msg w1) as [[b|msg'|] w2]; [| |exact I]; congruence.
Qed.

Lemma level_kept_on_globals (f : Globals -> A * Globals) :
  (forall g, nesting_level (snd (f g)) = nesting_level g) ->
  level_kept (on_globals f).
Proof.
  intros Hf w _. unfold on_globals. specialize (Hf (globals w)).
  destruct (f (globals w)) as [a g]. exact Hf.
Qed.

End LevelKept.

Lemma level_kept_call (c : Call) : level_kept (call c).
Proof. intros w _. reflexivity. Qed.

Lemma level_kept_depth_guard (delegate : M unit) :
  level_kept delegate -> level_kept (depth_guard delegate).
Proof.
  intros Hd w Hr. unfold depth_guard.
  set (entered := {| globals := nesting_level_incr (globals w);
                     calls := calls w |}).
  assert (Hin : nesting_level (globals entered)
                = wrap_int (nesting_level (globals w) + 1))
    by reflexivity.
  specialize (Hd entered ltac:(rewrite Hin; apply wrap_int_range)).
  destruct (delegate entered) as [[[]|msg|] w1]; [| |exact I];
    cbn [globals nesting_level_decr with_nesting_level nesting_level];
    rewrite Hd, Hin; apply wrap_int_incr_decr, Hr.
Qed.

Section HookDepth.

Variable E : Engine.

Lemma explain_ExecutorRun_guard
    (prev_ExecutorRun : option (QueryDesc -> ScanDirection -> Z -> M unit))
    (standard_ExecutorRun : QueryDesc -> ScanDirection -> Z -> M unit)
    (queryDesc : QueryDesc) (direction : ScanDirection) (count : Z)
    (w : World) :
  explain_ExecutorRun prev_ExecutorRun standard_ExecutorRun queryDesc
    direction count w
  = depth_guard
      match prev_ExecutorRun with
      | Some prev => prev queryDesc direction count
      | None => standard_ExecutorRun queryDesc direction count
      end w.
Proof.
  unfold explain_ExecutorRun, depth_guard. run_step.
  destruct prev_ExecutorRun as [prev|];
    match goal with
    | |- context [?d {| globals := ?g; calls := ?c |}] =>
        destruct (d {| globals := g; calls := c |}) as [[[]|msg|] w1]
    end; reflexivity.
Qed.

Lemma explain_ExecutorFinish_guard
    (prev_ExecutorFinish : option (QueryDesc -> M unit))
    (standard_ExecutorFinish : QueryDesc -> M unit)
    (queryDesc : QueryDesc) (w : World) :
  explain_ExecutorFinish prev_ExecutorFinish standard_ExecutorFinish
    queryDesc w
  = depth_guard
      match prev_ExecutorFinish with
      | Some prev => prev queryDesc
      | None => standard_ExecutorFinish queryDesc
      end w.
Proof.
  unfold explain_ExecutorFinish, depth_guard. run_step.
  destruct prev_ExecutorFinish as [prev|];
    match goal with
    | |- context [?d {| globals := ?g; calls := ?c |}] =>
        destruct (d {| globals := g; calls := c |}) as [[[]|msg|] w1]
    end; reflexivity.
Qed.

Lemma level_kept_qflash_enabled (queryDesc : QueryDesc) :
  level_kept (on_globals (qflash_enabled E queryDesc)).
Proof.
  apply level_kept_on_globals. intros g.
  apply (qflash_enabled_frame E queryDesc g).
Qed.

Lemma level_kept_answer {A} (f : list Call -> A) : level_kept (answer f).
Proof. intros w _. reflexivity. Qed.

Lemma level_kept_get_globals : level_kept get_globals.
Proof. intros w _. reflexivity. Qed.

Lemma level_kept_connect_at_depth : level_kept (connect_at_depth E).
Proof.
  unfold connect_at_depth.
  apply level_kept_bind; [apply level_kept_get_globals|]. intros g.
  apply level_kept_bind.
  { destruct (_ <? _); [|apply level_kept_ret].
    apply level_kept_bind; [apply level_kept_call|]. intros _.
    apply level_kept_on_globals. intros g0. reflexivity. }
  intros _.
  apply level_kept_bind; [apply level_kept_get_globals|]. intros g1.
  destruct (_ >? _).
  - apply level_kept_bind; [apply level_kept_call|]. intros _.
    apply level_kept_on_globals. intros g0. reflexivity.
  - apply level_kept_bind; [apply level_kept_answer|]. intros rc.
    apply level_kept_bind; [apply level_kept_call|]. intros _.
    destruct (negb _); [apply level_kept_elog_ERROR|apply level_kept_ret].
Qed.

(** The logging routine ends at the depth it started from when the
    execution of its INSERT does. *)
Lemma level_kept_log_InRelation_running (plan_execution : M unit)
    (es : ExplainState) (queryDesc : QueryDesc) :
  level_kept plan_execution ->
  level_kept (log_InRelation_running E plan_execution es queryDesc).
Proof.
  intros Hplan. unfold log_InRelation_running.
  apply level_kept_bind; [apply level_kept_get_globals|]. intros g.
  destruct (totaltime queryDesc) as [instr|]; [|apply level_kept_crash].
  cbv zeta.
  apply level_kept_bind; [apply level_kept_connect_at_depth|]. intros _.
  apply level_kept_bind; [apply level_kept_answer|]. intros spi_plan.
  apply level_kept_bind; [apply level_kept_call|]. intros _.
  apply level_kept_bind.
  { destruct (negb spi_plan);
      [apply level_kept_elog_ERROR|apply level_kept_ret]. }
  intros _.
  apply level_kept_bind; [apply level_kept_answer|]. intros rc.
  apply level_kept_bind; [apply level_kept_call|]. intros _.
  apply level_kept_bind; [exact Hplan|]. intros _.
  apply level_kept_bind.
  { destruct (rc <=? 0);
      [apply level_kept_elog_ERROR|apply level_kept_ret]. }
  intros _.
  apply level_kept_bind; [apply level_kept_answer|]. intros rc'.
  apply level_kept_bind; [apply level_kept_call|]. intros _.
  destruct (negb _); [apply level_kept_elog_ERROR|apply level_kept_ret].
Qed.

Lemma level_kept_log_InRelation (es : ExplainState) (queryDesc : QueryDesc) :
  level_kept (log_InRelation E es queryDesc).
Proof. apply level_kept_log_InRelation_running, level_kept_ret. Qed.

Lemma level_kept_explain_ExecutorStart
    (prev_ExecutorStart : option (QueryDesc -> Z -> M QueryDesc))
    (standard_ExecutorStart : QueryDesc -> Z -> M QueryDesc)
    (queryDesc : QueryDesc) (eflags : Z) :
  (forall d e,
      level_kept match prev_ExecutorStart with
                 | Some prev => prev d e
                 | None => standard_ExecutorStart d e
                 end) ->
  level_kept (explain_ExecutorStart E prev_ExecutorStart
                standard_ExecutorStart queryDesc eflags).
Proof.
  intros Hchain. unfold explain_ExecutorStart.
  apply level_kept_bind; [apply level_kept_qflash_enabled|]. intros en.
  apply level_kept_bind; [apply Hchain|]. intros d.
  apply level_kept_bind; [apply level_kept_qflash_enabled|]. intros en'.
  destruct (en' && is_NULL (totaltime d)); [|apply level_kept_ret].
  repeat (apply level_kept_bind; [apply level_kept_call|]; intros _).
  apply level_kept_ret.
Qed.

Lemma level_kept_explain_ExecutorEnd_running
    (prev_ExecutorEnd : option (QueryDesc -> M unit))
    (standard_ExecutorEnd : QueryDesc -> M unit)
    (plan_execution : M unit) (queryDesc : QueryDesc) :
  (forall d, level_kept (ExecutorEnd_chain prev_ExecutorEnd
                           standard_ExecutorEnd d)) ->
  level_kept plan_execution ->
  level_kept (explain_ExecutorEnd_running E prev_ExecutorEnd
                standard_ExecutorEnd plan_execution queryDesc).
Proof.
  intros Hchain Hplan. unfold explain_ExecutorEnd_running.
  apply level_kept_bind; [apply level_kept_qflash_enabled|]. intros en.
  destruct en; [|apply Hchain].
  apply level_kept_bind; [apply level_kept_call|]. intros _.
  destruct (totaltime queryDesc) as [instr|]; [|apply level_kept_crash].
  apply level_kept_bind; [intros w _; reflexivity|]. intros g.
  destruct (_ <=? _)%float; [apply level_kept_ret|].
  apply level_kept_bind.
  { unfold fixup_plan.
    destruct (ExplainFormat_eqb _ _); [|apply level_kept_ret].
    destruct (fix_json _); [apply level_kept_ret|apply level_kept_crash]. }
  intros es.
  apply level_kept_bind;
    [apply level_kept_log_InRelation_running, Hplan|]. intros _.
  apply level_kept_bind; [apply level_kept_call|]. intros _.
  apply Hchain.
Qed.

Lemma level_kept_explain_ExecutorEnd
    (prev_ExecutorEnd : option (QueryDesc -> M unit))
    (standard_ExecutorEnd : QueryDesc -> M unit) (queryDesc : QueryDesc) :
  (forall d, level_kept (ExecutorEnd_chain prev_ExecutorEnd
                           standard_ExecutorEnd d)) ->
  level_kept (explain_ExecutorEnd E prev_ExecutorEnd standard_ExecutorEnd
                queryDesc).
Proof.
  intros Hchain.
  apply level_kept_explain_ExecutorEnd_running;
    [exact Hchain|apply level_kept_ret].
Qed.

(** Every activity, and every query with all that runs inside it, ends at
    the depth it started from. *)
Lemma level_kept_perform (a : Activity) : level_kept (perform E a).
Proof.
  induction a using Activity_mind
    with (P0 := fun q => level_kept (execute E q)); cbn [perform execute].
  - apply level_kept_ret.
  - apply level_kept_elog_ERROR.
  - apply level_kept_bind; [exact IHa|]. intros _. exact IHa0.
  - apply level_kept_bind; [|intros _; exact IHa2].
    apply level_kept_PG_TRY; [exact IHa1|]. intros _. apply level_kept_ret.
  - apply level_kept_bind.
    { apply level_kept_explain_ExecutorStart. intros d e.
      apply level_kept_bind; [apply level_kept_call|]. intros _.
      apply level_kept_ret. }
    intros d.
    apply level_kept_bind.
    { intros w Hr. rewrite explain_ExecutorRun_guard.
      apply level_kept_depth_guard; assumption. }
    intros _.
    apply level_kept_bind.
    { intros w Hr. rewrite explain_ExecutorFinish_guard.
      apply level_kept_depth_guard; assumption. }
    intros _.
    apply level_kept_explain_ExecutorEnd_running; [|assumption].
    intros d'. apply level_kept_call.
Qed.

Lemma level_kept_execute (q : Query) : level_kept (execute E q).
Proof.
  destruct q as [queryDesc eflags run finish logging measured].
  cbn [execute].
  apply level_kept_bind.
  { apply level_kept_explain_ExecutorStart. intros d e.
    apply level_kept_bind; [apply level_kept_call|]. intros _.
    apply level_kept_ret. }
  intros d.
  apply level_kept_bind.
  { intros w Hr. rewrite explain_ExecutorRun_guard.
    apply level_kept_depth_guard; [apply level_kept_perform|exact Hr]. }
  intros _.
  apply level_kept_bind.
  { intros w Hr. rewrite explain_ExecutorFinish_guard.
    apply level_kept_depth_guard; [apply level_kept_perform|exact Hr]. }
  intros _.
  apply level_kept_explain_ExecutorEnd_running;
    [|apply level_kept_perform].
  intros d'. apply level_kept_call.
Qed.

End HookDepth.

(** C4.  The run hook and the finish hook are the depth guard around the
    rest of their chain.  The rest of the chain is entered with the counter
    one higher than the hook found it and nothing else changed; when it
    returns, and when it raises an error, the hook takes the counter one
    down from where the chain left it, and the error goes on after that.
    Around a delegate that ends at the depth it was entered with, the guard
    restores the depth it found; so every query, with whatever runs and
    fails inside it (the INSERT of its own logging included), ends at the
    depth it started from, and a top-level query, completed or aborted,
    ends at depth 0. *)
Theorem nesting_level_restored (E : Engine)
    (prev_ExecutorRun : option (QueryDesc -> ScanDirection -> Z -> M unit))
    (standard_ExecutorRun : QueryDesc -> ScanDirection -> Z -> M unit)
    (prev_ExecutorFinish : option (QueryDesc -> M unit))
    (standard_ExecutorFinish : QueryDesc -> M unit)
    (queryDesc : QueryDesc) (direction : ScanDirection) (count : Z)
    (q : Query) (w : World) :
  int_range (nesting_level (globals w)) ->
  explain_ExecutorRun prev_ExecutorRun standard_ExecutorRun queryDesc
    direction count w
  = depth_guard
      match prev_ExecutorRun with
      | Some prev => prev queryDesc direction count
      | None => standard_ExecutorRun queryDesc direction count
      end w
  /\ explain_ExecutorFinish prev_ExecutorFinish standard_ExecutorFinish
       queryDesc w
     = depth_guard
         match prev_ExecutorFinish with
         | Some prev => prev queryDesc
         | None => standard_ExecutorFinish queryDesc
         end w
  /\ (exists entered,
         one_level 1 w entered
         /\ (nesting_level (globals w) + 1 < 2 ^ 31 ->
             nesting_level (globals entered) = nesting_level (globals w) + 1)
         /\ (forall delegate,
                guarded_result delegate entered (depth_guard delegate w))
         /\ (forall chain,
                guarded_result chain entered
                  (explain_ExecutorRun None (fun _ _ _ => chain) queryDesc
                     direction count w))
         /\ (forall chain,
                guarded_result chain entered
                  (explain_ExecutorFinish None (fun _ => chain) queryDesc w)))
  /\ (forall delegate,
         level_kept delegate ->
         fst (depth_guard delegate w) <> Crashed ->
         nesting_level (globals (snd (depth_guard delegate w)))
         = nesting_level (globals w))
  /\ (fst (execute E q w) <> Crashed ->
      nesting_level (globals (snd (execute E q w)))
      = nesting_level (globals w))
  /\ (nesting_level (globals w) = 0 ->
      fst (execute E q w) <> Crashed ->
      nesting_level (globals (snd (execute E q w))) = 0).
Proof.
  intros Hr.
  assert (Hq : fst (execute E q w) <> Crashed ->
               nesting_level (globals (snd (execute E q w)))
               = nesting_level (globals w)).
  { pose proof (level_kept_execute E q w Hr) as Hk.
    destruct (execute E q w) as [[[]|msg|] w1]; cbn [fst snd];
      intros Hnc; [exact Hk|exact Hk|destruct (Hnc eq_refl)]. }
  assert (Hguard : forall delegate,
             guarded_result delegate
               {| globals := nesting_level_incr (globals w);
                  calls := calls w |}
               (depth_guard delegate w)).
  { intros delegate. unfold guarded_result, depth_guard.
    destruct (delegate _) as [[[]|msg|] [g1 cs1]]; cbn [fst snd];
      [split; [reflexivity|]|split; [reflexivity|]|reflexivity];
      unfold one_level; cbn [globals calls];
      (split; [reflexivity|split; [destruct g1; reflexivity|reflexivity]]). }
  split; [apply explain_ExecutorRun_guard|].
  split; [apply explain_ExecutorFinish_guard|].
  split.
  { exists {| globals := nesting_level_incr (globals w); calls := calls w |}.
    split.
    { unfold one_level. cbn [globals calls].
      split; [reflexivity|split; [destruct (globals w); reflexivity|]].
      reflexivity. }
    split.
    { intros Hroom. cbn [globals nesting_level_incr with_nesting_level
                           nesting_level].
      unfold int_range in Hr. unfold wrap_int. rewrite Z.mod_small; lia. }
    split; [exact Hguard|]. split.
    - intros chain. rewrite explain_ExecutorRun_guard. apply Hguard.
    - intros chain. rewrite explain_ExecutorFinish_guard. apply Hguard. }
  split.
  - intros delegate Hd.
    pose proof (level_kept_depth_guard delegate Hd w Hr) as Hk.
    destruct (depth_guard delegate w) as [[[]|msg|] w1]; cbn [fst snd];
      intros Hnc; [exact Hk|exact Hk|destruct (Hnc eq_refl)].
  - split; [exact Hq|].
    intros H0 Hnc. rewrite (Hq Hnc). exact H0.
Qed.

Lemma nesting_level_restored_witness :
  execute demo_engine demo_nested (demo_world demo_resolved)
  = (Returned tt,
     snd (execute demo_engine demo_nested (demo_world demo_resolved)))
  /\ nesting_level
       (globals (snd (execute demo_engine demo_nested
                        (demo_world demo_resolved)))) = 0
  /\ fst (execute demo_engine demo_aborted (demo_world demo_resolved))
     = Raised "division by zero"
  /\ nesting_level
       (globals (snd (execute demo_engine demo_aborted
                        (demo_world demo_resolved)))) = 0
  /\ (exists entered,
         nesting_level (globals entered) = 1
         /\ guarded_result (elog_ERROR "division by zero") entered
              (explain_ExecutorRun None
                 (fun _ _ _ => elog_ERROR "division by zero")
                 (demo_query CMD_SELECT [16390] 0.5%float)
                 ForwardScanDirection 0 (demo_world demo_resolved))).
Proof.
  split; [vm_compute; reflexivity|]. split; [|split; [|split]].
  - destruct (nesting_level_restored demo_engine None
                (fun _ _ _ => ret tt) None (fun _ => ret tt)
                (demo_query CMD_SELECT [16390] 0.5%float)
                ForwardScanDirection 0 demo_nested
                (demo_world demo_resolved)) as (_ & _ & _ & _ & _ & H).
    + vm_compute. split; [discriminate|reflexivity].
    + apply H; [reflexivity|]. vm_compute. discriminate.
  - vm_compute. reflexivity.
  - destruct (nesting_level_restored demo_engine None
                (fun _ _ _ => ret tt) None (fun _ => ret tt)
                (demo_query CMD_SELECT [16390] 0.5%float)
                ForwardScanDirection 0 demo_aborted
                (demo_world demo_resolved)) as (_ & _ & _ & _ & _ & H).
    + vm_compute. split; [discriminate|reflexivity].
    + apply H; [reflexivity|]. vm_compute. discriminate.
  - destruct (nesting_level_restored demo_engine None
                (fun _ _ _ => ret tt) None (fun _ => ret tt)
                (demo_query CMD_SELECT [16390] 0.5%float)
                ForwardScanDirection 0 demo_nested
                (demo_world demo_resolved))
      as (_ & _ & (entered & _ & Hone & _ & Hrun & _) & _).
    + vm_compute. split; [discriminate|reflexivity].
    + exists entered. split; [|apply Hrun].
      rewrite Hone; [reflexivity|vm_compute; reflexivity].
Defined.

(** * Further properties of the code *)

(** ** The lookup and the decision *)

Lemma with_namespace_oid_same (g : Globals) :
  with_namespace_oid (qflash_log_namespace_oid g) g = g.
Proof. destruct g; reflexivity. Qed.

Lemma with_rel_oid_same (g : Globals) :
  with_rel_oid (qflash_log_rel_oid g) g = g.
Proof. destruct g; reflexivity. Qed.

(** The state the lookup leaves, written out. *)
Lemma get_qflash_log_rel_oid_snd (E : Engine) (g : Globals) :
  snd (get_qflash_log_rel_oid E g)
  = if OidIsValid (qflash_log_rel_oid g) then g
    else
      let g1 :=
        if (String.length (qflash_log_namespace_name g) =? 0)%nat then g
        else with_namespace_oid
               (get_namespace_oid E (qflash_log_namespace_name g)) g in
      if negb (OidIsValid (qflash_log_namespace_oid g1))
         || (String.length (qflash_log_rel_name g) =? 0)%nat
      then g1
      else with_rel_oid
             (get_relname_relid E (qflash_log_rel_name g)
                (qflash_log_namespace_oid g1)) g1.
Proof.
  unfold get_qflash_log_rel_oid. cbn [snd].
  destruct (OidIsValid (qflash_log_rel_oid g)); cbn [negb]; [reflexivity|].
  rewrite set_qflash_relname_oid_snd, set_qflash_namespace_oid_snd.
  cbv zeta.
  destruct (String.length (qflash_log_namespace_name g) =? 0)%nat;
    reflexivity.
Qed.

Lemma get_qflash_log_rel_oid_fst (E : Engine) (g : Globals) :
  fst (get_qflash_log_rel_oid E g)
  = qflash_log_rel_oid (snd (get_qflash_log_rel_oid E g)).
Proof. reflexivity. Qed.


Ltac globals_simpl :=
  cbn [qflash_enabled_status qflash_log_min_duration qflash_log_hash
       qflash_log_rel_name qflash_log_namespace_name qflash_log_namespace_oid
       qflash_log_rel_oid qflash_log_nested nesting_level nesting_spi_level
       with_rel_oid with_namespace_oid with_nesting_level
       with_nesting_spi_level negb orb andb fst snd] in *.

Ltac split_ifs :=
  repeat (globals_simpl;
          match goal with
          | H : ?b = _ |- context [if ?b then _ else _] => rewrite H
          | |- context [if ?b then _ else _] =>
              lazymatch b with
              | context [if _ then _ else _] => fail
              | _ => destruct b eqn:?
              end
          end).

(** A second lookup finds what the first one left. *)
Lemma get_qflash_log_rel_oid_again (E : Engine) (g : Globals) :
  snd (get_qflash_log_rel_oid E (snd (get_qflash_log_rel_oid E g)))
  = snd (get_qflash_log_rel_oid E g).
Proof.
  rewrite !get_qflash_log_rel_oid_snd.
  destruct g as [st md h rn nn no ro ne nl sl].
  cbv zeta. split_ifs; try reflexivity; try congruence.
Qed.

Lemma string_length_zero (s : string) :
  (String.length s =? 0)%nat = true <-> s = "".
Proof.
  destruct s; cbn; split; intros H; try reflexivity; discriminate H.
Qed.

Lemma string_length_nonzero (s : string) :
  (String.length s =? 0)%nat = false <-> s <> "".
Proof.
  destruct s; cbn; split; intros H; try reflexivity; try discriminate H;
    try congruence.
Qed.

(** The decision, operand by operand, in both directions. *)
Lemma qflash_enabled_fst (E : Engine) (queryDesc : QueryDesc) (g : Globals) :
  fst (qflash_enabled E queryDesc g)
  = qflash_enabled_status g
    && ((nesting_level g =? 0) || qflash_log_nested g)
    && OidIsValid (fst (get_qflash_log_rel_oid E g))
    && (CmdType_eqb (operation queryDesc) CMD_SELECT
        || CmdType_eqb (operation queryDesc) CMD_UPDATE
        || CmdType_eqb (operation queryDesc) CMD_INSERT
        || CmdType_eqb (operation queryDesc) CMD_DELETE)
    && recursion_guard (relationOids (plannedstmt queryDesc))
         (snd (get_qflash_log_rel_oid E g)).
Proof.
  unfold qflash_enabled.
  destruct (qflash_enabled_status g); [|reflexivity].
  destruct ((nesting_level g =? 0) || qflash_log_nested g); [|reflexivity].
  destruct (get_qflash_log_rel_oid E g) as [oid g1]. cbn [fst snd negb andb].
  unfold OidIsValid. destruct (oid =? InvalidOid); [reflexivity|].
  cbn [negb andb]. destruct (_ || _ || _ || _); reflexivity.
Qed.

Lemma qflash_enabled_snd (E : Engine) (queryDesc : QueryDesc) (g : Globals) :
  snd (qflash_enabled E queryDesc g)
  = if qflash_enabled_status g
       && ((nesting_level g =? 0) || qflash_log_nested g)
    then snd (get_qflash_log_rel_oid E g)
    else g.
Proof.
  unfold qflash_enabled.
  destruct (qflash_enabled_status g); [|reflexivity].
  destruct ((nesting_level g =? 0) || qflash_log_nested g); [|reflexivity].
  destruct (get_qflash_log_rel_oid E g) as [oid g1]. cbn [fst snd negb andb].
  destruct (negb (negb _)); [reflexivity|].
  destruct (negb _); reflexivity.
Qed.

(** X1.  [qflash_enabled] writes nothing but the two cached identifiers;
    it leaves them alone too, and asks the catalog nothing, when the flag is
    off, when the statement is nested and nested logging is off, and when a
    relation identifier is already cached. *)
Theorem qflash_enabled_writes_identifiers_only (E : Engine)
    (queryDesc : QueryDesc) (g : Globals) :
  let g' := snd (qflash_enabled E queryDesc g) in
  (qflash_enabled_status g' = qflash_enabled_status g
   /\ qflash_log_min_duration g' = qflash_log_min_duration g
   /\ qflash_log_hash g' = qflash_log_hash g
   /\ qflash_log_rel_name g' = qflash_log_rel_name g
   /\ qflash_log_namespace_name g' = qflash_log_namespace_name g
   /\ qflash_log_nested g' = qflash_log_nested g
   /\ nesting_level g' = nesting_level g
   /\ nesting_spi_level g' = nesting_spi_level g)
  /\ (qflash_enabled_status g = false ->
      qflash_enabled E queryDesc g = (false, g))
  /\ (nesting_level g <> 0 -> qflash_log_nested g = false ->
      qflash_enabled E queryDesc g = (false, g))
  /\ (OidIsValid (qflash_log_rel_oid g) = true -> g' = g).
Proof.
  cbv zeta. split; [|split; [|split]].
  - rewrite qflash_enabled_snd.
    destruct (_ && _); [apply get_qflash_log_rel_oid_frame|tauto].
  - intros Hs. unfold qflash_enabled. rewrite Hs. reflexivity.
  - intros Hl Hn. unfold qflash_enabled.
    destruct (qflash_enabled_status g); [|reflexivity].
    apply Z.eqb_neq in Hl. rewrite Hl, Hn. reflexivity.
  - intros Hv. rewrite qflash_enabled_snd.
    destruct (_ && _); [|reflexivity].
    rewrite get_qflash_log_rel_oid_cached by exact Hv. reflexivity.
Qed.

Lemma qflash_enabled_writes_identifiers_only_witness :
  qflash_enabled demo_engine (demo_query CMD_SELECT [16390] 0.5%float)
    initial_globals = (false, initial_globals)
  /\ qflash_enabled demo_engine (demo_query CMD_SELECT [16390] 0.5%float)
       (with_nesting_level 1 demo_globals)
     = (false, with_nesting_level 1 demo_globals)
  /\ snd (qflash_enabled demo_engine (demo_query CMD_UTILITY [] 0.5%float)
            demo_resolved) = demo_resolved.
Proof.
  split; [|split].
  - destruct (qflash_enabled_writes_identifiers_only demo_engine
                (demo_query CMD_SELECT [16390] 0.5%float) initial_globals)
      as (_ & H & _).
    apply H. reflexivity.
  - destruct (qflash_enabled_writes_identifiers_only demo_engine
                (demo_query CMD_SELECT [16390] 0.5%float)
                (with_nesting_level 1 demo_globals)) as (_ & _ & H & _).
    apply H; [vm_compute; discriminate|reflexivity].
  - destruct (qflash_enabled_writes_identifiers_only demo_engine
                (demo_query CMD_UTILITY [] 0.5%float) demo_resolved)
      as (_ & _ & _ & H).
    apply H. vm_compute. reflexivity.
Defined.

(** X2.  [qflash_enabled] answers true exactly when the flag is on, the
    depth is 0 or nested logging is on, the lookup returns a valid relation
    identifier, the operation is one of the four of line 189, and the
    relation list is empty or starts with a relation that is neither the
    sink, as the lookup returned it, nor [pg_type]. *)
Theorem qflash_enabled_iff (E : Engine) (queryDesc : QueryDesc) (g : Globals) :
  fst (qflash_enabled E queryDesc g) = true
  <-> (qflash_enabled_status g = true
       /\ (nesting_level g = 0 \/ qflash_log_nested g = true)
       /\ OidIsValid (fst (get_qflash_log_rel_oid E g)) = true
       /\ is_dml (operation queryDesc)
       /\ first_relation_ok (relationOids (plannedstmt queryDesc))
            (fst (get_qflash_log_rel_oid E g))).
Proof.
  rewrite qflash_enabled_fst, !andb_true_iff, !orb_true_iff,
    !CmdType_eqb_eq, Z.eqb_eq.
  unfold is_dml, first_relation_ok, recursion_guard.
  rewrite get_qflash_log_rel_oid_fst.
  destruct (relationOids (plannedstmt queryDesc)) as [|first rest].
  - tauto.
  - rewrite !andb_true_iff, !negb_true_iff, !Z.eqb_neq, Z.ltb_lt.
    cbn [length]. split; [tauto|].
    intros (? & ? & ? & ? & ? & ?). repeat split; try assumption;
      try tauto; lia.
Qed.

(** A second call on the same descriptor repeats the first. *)
Lemma qflash_enabled_again (E : Engine) (queryDesc : QueryDesc)
    (g : Globals) :
  qflash_enabled E queryDesc (snd (qflash_enabled E queryDesc g))
  = qflash_enabled E queryDesc g.
Proof.
  apply injective_projections.
  - rewrite !qflash_enabled_fst, qflash_enabled_snd.
    destruct (qflash_enabled_status g
              && ((nesting_level g =? 0) || qflash_log_nested g)) eqn:Hb;
      [|rewrite Hb; reflexivity].
    pose proof (get_qflash_log_rel_oid_frame E g) as Hfr. cbn zeta in Hfr.
    destruct Hfr as (Hs & _ & _ & _ & _ & Hn & Hl & _).
    rewrite Hs, Hn, Hl, Hb, !get_qflash_log_rel_oid_fst,
      get_qflash_log_rel_oid_again.
    reflexivity.
  - rewrite !qflash_enabled_snd.
    destruct (qflash_enabled_status g
              && ((nesting_level g =? 0) || qflash_log_nested g)) eqn:Hb;
      [|rewrite Hb; reflexivity].
    pose proof (get_qflash_log_rel_oid_frame E g) as Hfr. cbn zeta in Hfr.
    destruct Hfr as (Hs & _ & _ & _ & _ & Hn & Hl & _).
    rewrite Hs, Hn, Hl, Hb. apply get_qflash_log_rel_oid_again.
Qed.

(** The decision reads the operation and the relation list of the
    descriptor, nothing else. *)
Lemma qflash_enabled_ext (E : Engine) (d d' : QueryDesc) (g : Globals) :
  operation d' = operation d ->
  plannedstmt d' = plannedstmt d ->
  qflash_enabled E d' g = qflash_enabled E d g.
Proof.
  intros Ho Hp. unfold qflash_enabled. rewrite Ho, Hp. reflexivity.
Qed.

(** X3.  Asking twice changes nothing: a second call, on the same
    descriptor or on one with the same operation and planned statement,
    gives the answer of the first and leaves the globals as the first left
    them.  This is what lets the start hook ask before and after the rest of
    its chain, and the end hook ask again. *)
Theorem qflash_enabled_twice (E : Engine) (d d' : QueryDesc) (g : Globals) :
  operation d' = operation d ->
  plannedstmt d' = plannedstmt d ->
  qflash_enabled E d' (snd (qflash_enabled E d g)) = qflash_enabled E d g.
Proof.
  intros Ho Hp. rewrite (qflash_enabled_ext E d d' _ Ho Hp).
  apply qflash_enabled_again.
Qed.

Lemma qflash_enabled_twice_witness :
  qflash_enabled demo_engine
    (set_totaltime None (demo_query CMD_SELECT [16390] 0.5%float))
    (snd (qflash_enabled demo_engine
            (demo_query CMD_SELECT [16390] 0.5%float) demo_globals))
  = (true, demo_resolved).
Proof.
  rewrite (qflash_enabled_twice demo_engine
             (demo_query CMD_SELECT [16390] 0.5%float)
             (set_totaltime None (demo_query CMD_SELECT [16390] 0.5%float))
             demo_globals eq_refl eq_refl).
  vm_compute. reflexivity.
Defined.

(** X4.  Once a relation identifier is cached the catalog is not asked
    again: the decision and the globals are the same under any two
    catalogs. *)
Theorem qflash_enabled_ignores_catalog_once_cached (E E' : Engine)
    (queryDesc : QueryDesc) (g : Globals) :
  OidIsValid (qflash_log_rel_oid g) = true ->
  qflash_enabled E queryDesc g = qflash_enabled E' queryDesc g
  /\ snd (qflash_enabled E queryDesc g) = g.
Proof.
  intros Hv.
  assert (Hsame : forall F, qflash_enabled F queryDesc g
                            = (fst (qflash_enabled F queryDesc g), g)).
  { intros F. apply injective_projections; [reflexivity|]. cbn [snd].
    rewrite qflash_enabled_snd. destruct (_ && _); [|reflexivity].
    rewrite get_qflash_log_rel_oid_cached by exact Hv. reflexivity. }
  split; [|rewrite Hsame; reflexivity].
  rewrite (Hsame E), (Hsame E'). f_equal.
  rewrite !qflash_enabled_fst, !get_qflash_log_rel_oid_cached by exact Hv.
  reflexivity.
Qed.

Lemma qflash_enabled_ignores_catalog_once_cached_witness :
  qflash_enabled demo_engine (demo_query CMD_SELECT [16390] 0.5%float)
    demo_resolved
  = qflash_enabled
      {| get_namespace_oid := fun _ => InvalidOid;
         get_relname_relid := fun _ _ => InvalidOid;
         ExplainBeginOutput := ExplainBeginOutput demo_engine;
         ExplainPrintPlan := ExplainPrintPlan demo_engine;
         ExplainPrintTriggers := ExplainPrintTriggers demo_engine;
         ExplainEndOutput := ExplainEndOutput demo_engine;
         InstrEndLoop := InstrEndLoop demo_engine;
         SPI_connect := SPI_connect demo_engine;
         SPI_prepare := SPI_prepare demo_engine;
         SPI_execute_plan := SPI_execute_plan demo_engine;
         SPI_execute := SPI_execute demo_engine;
         SPI_finish := SPI_finish demo_engine |}
      (demo_query CMD_SELECT [16390] 0.5%float) demo_resolved.
Proof.
  apply qflash_enabled_ignores_catalog_once_cached.
  vm_compute. reflexivity.
Defined.

(** ** The configuration hooks *)

(** X5.  After the flag has been turned off, the next lookup takes nothing
    from the identifiers cached before: the namespace identifier is what the
    catalog gives for the configured name (none for an empty name), and the
    relation identifier is what the catalog gives under that namespace, or
    none when the namespace is not valid or the relation name is empty. *)
Theorem lookup_after_disable (E : Engine) (g : Globals) :
  let g' := snd (get_qflash_log_rel_oid E (enabled_GucAssign false g)) in
  qflash_log_namespace_oid g'
  = (if (String.length (qflash_log_namespace_name g) =? 0)%nat
     then InvalidOid
     else get_namespace_oid E (qflash_log_namespace_name g))
  /\ qflash_log_rel_oid g'
     = (if OidIsValid (qflash_log_namespace_oid g')
           && negb (String.length (qflash_log_rel_name g) =? 0)%nat
        then get_relname_relid E (qflash_log_rel_name g)
               (qflash_log_namespace_oid g')
        else InvalidOid).
Proof.
  cbv zeta. rewrite get_qflash_log_rel_oid_snd.
  unfold enabled_GucAssign. destruct g as [st md h rn nn no ro ne nl sl].
  cbv zeta. split_ifs; split; try reflexivity; try congruence.
  all: exfalso; destruct (OidIsValid (get_namespace_oid E nn));
    destruct (String.length rn =? 0)%nat; cbn in *; discriminate.
Qed.

(** X6.  While the flag is on, the check of a namespace name accepts
    exactly the non-empty names the catalog knows.  An empty name is refused
    with nothing written; any other name, accepted or refused, has its
    lookup result stored as the namespace identifier, so a refused one
    leaves the namespace identifier invalid; the relation identifier is
    never touched. *)
Theorem namespace_GucCheck_enabled (E : Engine) (newval : string)
    (g : Globals) :
  qflash_enabled_status g = true ->
  (fst (namespace_GucCheck E newval g) = true
   <-> newval <> "" /\ OidIsValid (get_namespace_oid E newval) = true)
  /\ (newval = "" -> snd (namespace_GucCheck E newval g) = g)
  /\ (newval <> "" ->
      snd (namespace_GucCheck E newval g)
      = with_namespace_oid (get_namespace_oid E newval) g)
  /\ (newval <> "" -> fst (namespace_GucCheck E newval g) = false ->
      qflash_log_namespace_oid (snd (namespace_GucCheck E newval g))
      = InvalidOid)
  /\ qflash_log_rel_oid (snd (namespace_GucCheck E newval g))
     = qflash_log_rel_oid g.
Proof.
  intros Hs. unfold namespace_GucCheck, set_qflash_namespace_oid.
  rewrite Hs.
  destruct (String.length newval =? 0)%nat eqn:Hn.
  - apply string_length_zero in Hn. subst newval. cbn.
    repeat split; try tauto; try discriminate; intros; tauto.
  - apply string_length_nonzero in Hn.
    cbn [with_namespace_oid qflash_log_namespace_oid].
    destruct (OidIsValid (get_namespace_oid E newval)) eqn:Hv; cbn.
    + repeat split; try tauto; try discriminate; auto.
    + apply OidIsValid_false in Hv.
      repeat split; try tauto; try discriminate; auto.
Qed.

Lemma namespace_GucCheck_enabled_witness :
  fst (namespace_GucCheck demo_engine "audit" demo_resolved) = true
  /\ snd (namespace_GucCheck demo_engine "" demo_resolved) = demo_resolved
  /\ qflash_log_namespace_oid
       (snd (namespace_GucCheck demo_engine "nosuch" demo_resolved))
     = InvalidOid.
Proof.
  split; [|split].
  - destruct (namespace_GucCheck_enabled demo_engine "audit" demo_resolved
                eq_refl) as (H & _).
    apply H. split; [discriminate|reflexivity].
  - destruct (namespace_GucCheck_enabled demo_engine "" demo_resolved
                eq_refl) as (_ & H & _).
    apply H. reflexivity.
  - destruct (namespace_GucCheck_enabled demo_engine "nosuch" demo_resolved
                eq_refl) as (_ & _ & _ & H & _).
    apply H; [discriminate|reflexivity].
Defined.



(** ** The start hook *)

Lemma land_lor_same (a b : Z) : Z.land (Z.lor a b) b = b.
Proof.
  apply Z.bits_inj'. intros n _.
  rewrite Z.land_spec, Z.lor_spec.
  destruct (Z.testbit a n), (Z.testbit b n); reflexivity.
Qed.

Lemma world_eta (w : World) : {| globals := globals w; calls := calls w |} = w.
Proof. destruct w; reflexivity. Qed.

(** X8.  With the flag off before the rest of the chain runs and after it,
    the start hook is the rest of its chain, and with the flag off the end
    hook is the rest of its chain: same outcome, same globals, same calls. *)
Theorem hooks_transparent_when_off (E : Engine)
    (prev_ExecutorStart : option (QueryDesc -> Z -> M QueryDesc))
    (standard_ExecutorStart : QueryDesc -> Z -> M QueryDesc)
    (prev_ExecutorEnd : option (QueryDesc -> M unit))
    (standard_ExecutorEnd : QueryDesc -> M unit)
    (queryDesc : QueryDesc) (eflags : Z) (w : World) :
  qflash_enabled_status (globals w) = false ->
  let chain :=
    match prev_ExecutorStart with
    | Some prev => prev queryDesc eflags
    | None => standard_ExecutorStart queryDesc eflags
    end in
  (qflash_enabled_status (globals (snd (chain w))) = false ->
   explain_ExecutorStart E prev_ExecutorStart standard_ExecutorStart
     queryDesc eflags w = chain w)
  /\ explain_ExecutorEnd E prev_ExecutorEnd standard_ExecutorEnd queryDesc w
     = ExecutorEnd_chain prev_ExecutorEnd standard_ExecutorEnd queryDesc w.
Proof.
  intros Hoff chain.
  assert (Hq : forall d h, qflash_enabled_status h = false ->
                           qflash_enabled E d h = (false, h)).
  { intros d h Hh. unfold qflash_enabled. rewrite Hh. reflexivity. }
  split.
  - intros Hafter. unfold explain_ExecutorStart.
    unfold bind at 1. unfold on_globals at 1.
    rewrite (Hq queryDesc _ Hoff), world_eta. fold chain.
    unfold bind at 1. revert Hafter.
    destruct (chain w) as [[d2|msg|] w2]; cbn [snd]; intros Hafter;
      [|reflexivity|reflexivity].
    unfold bind, on_globals. rewrite (Hq d2 _ Hafter), world_eta.
    reflexivity.
  - rewrite (explain_ExecutorEnd_skipped E _ _ queryDesc w (globals w)
               (Hq queryDesc _ Hoff)).
    rewrite world_eta. reflexivity.
Qed.

Lemma hooks_transparent_when_off_witness :
  explain_ExecutorStart demo_engine None standard_ExecutorStart
    (demo_query CMD_SELECT [16390] 0.5%float) 0 (demo_world initial_globals)
  = standard_ExecutorStart (demo_query CMD_SELECT [16390] 0.5%float) 0
      (demo_world initial_globals)
  /\ explain_ExecutorEnd demo_engine None standard_ExecutorEnd
       (demo_query CMD_SELECT [16390] 0.5%float) (demo_world initial_globals)
     = standard_ExecutorEnd (demo_query CMD_SELECT [16390] 0.5%float)
         (demo_world initial_globals).
Proof.
  destruct (hooks_transparent_when_off demo_engine None
              standard_ExecutorStart None standard_ExecutorEnd
              (demo_query CMD_SELECT [16390] 0.5%float) 0
              (demo_world initial_globals) eq_refl) as (H1 & H2).
  split; [apply H1; reflexivity|exact H2].
Defined.

(** X9.  When the start hook returns, the rest of its chain has returned
    too, and it was called with the descriptor as given, except that for an
    eligible statement every bit of [INSTRUMENT_ALL] had been set in its
    instrument options.  The descriptor handed back is the chain's, with an
    instrumentation record added exactly if the statement is eligible at
    that moment and has none: a statement that is not eligible then gets its
    descriptor back as the chain left it and nothing is called, a record
    that is already there is kept, a new record is zeroed and is allocated
    between the two memory context switches, and a statement that is
    eligible right after the hook has a record. *)
Theorem explain_ExecutorStart_result (E : Engine)
    (prev_ExecutorStart : option (QueryDesc -> Z -> M QueryDesc))
    (standard_ExecutorStart : QueryDesc -> Z -> M QueryDesc)
    (queryDesc : QueryDesc) (eflags : Z) (w : World)
    (queryDesc' : QueryDesc) (w' : World) :
  explain_ExecutorStart E prev_ExecutorStart standard_ExecutorStart
    queryDesc eflags w = (Returned queryDesc', w') ->
  let eligible := fst (qflash_enabled E queryDesc (globals w)) in
  let d1 :=
    if eligible then
      set_instrument_options
        (Z.lor (instrument_options queryDesc) INSTRUMENT_ALL) queryDesc
    else queryDesc in
  let w1 :=
    {| globals := snd (qflash_enabled E queryDesc (globals w));
       calls := calls w |} in
  exists d2 w2,
    match prev_ExecutorStart with
    | Some prev => prev d1 eflags
    | None => standard_ExecutorStart d1 eflags
    end w1 = (Returned d2, w2)
    /\ (eligible = true ->
        Z.land (instrument_options d1) INSTRUMENT_ALL = INSTRUMENT_ALL)
    /\ globals w' = snd (qflash_enabled E d2 (globals w2))
    /\ set_totaltime (totaltime d2) queryDesc' = d2
    /\ (totaltime d2 <> None -> queryDesc' = d2 /\ calls w' = calls w2)
    /\ (calls w' = calls w2
        \/ calls w'
           = (calls w2
              ++ [C_MemoryContextSwitchTo_es_query_cxt;
                  C_InstrAlloc 1 INSTRUMENT_ALL;
                  C_MemoryContextSwitchTo_oldcxt])%list)
    /\ (fst (qflash_enabled E queryDesc' (globals w')) = true ->
        totaltime queryDesc' <> None)
    /\ (fst (qflash_enabled E d2 (globals w2)) = false ->
        queryDesc' = d2 /\ calls w' = calls w2)
    /\ (fst (qflash_enabled E d2 (globals w2)) = true ->
        totaltime d2 = None ->
        queryDesc' = set_totaltime (Some {| total := 0 |}) d2
        /\ calls w'
           = (calls w2
              ++ [C_MemoryContextSwitchTo_es_query_cxt;
                  C_InstrAlloc 1 INSTRUMENT_ALL;
                  C_MemoryContextSwitchTo_oldcxt])%list).
Proof.
  intros Hrun eligible d1 w1. revert Hrun.
  unfold explain_ExecutorStart. unfold bind at 1. unfold on_globals at 1.
  destruct (qflash_enabled E queryDesc (globals w)) as [en g1] eqn:He.
  cbn [fst snd] in eligible, d1, w1. subst eligible. fold d1. fold w1.
  unfold bind at 1.
  destruct (match prev_ExecutorStart with
            | Some prev => prev d1 eflags
            | None => standard_ExecutorStart d1 eflags
            end w1) as [[d2|msg|] w2] eqn:Hchain; cbv beta iota;
    [|discriminate|discriminate].
  unfold bind at 1. unfold on_globals at 1.
  destruct (qflash_enabled E d2 (globals w2)) as [en2 g3] eqn:He2.
  intros Hrun. exists d2, w2. rewrite He2. cbn [snd].
  split; [reflexivity|].
  split.
  { intros Hel. unfold d1. rewrite Hel.
    cbn [set_instrument_options instrument_options]. apply land_lor_same. }
  assert (Hagain : forall d, operation d = operation d2 ->
                             plannedstmt d = plannedstmt d2 ->
                             qflash_enabled E d g3 = (en2, g3)).
  { intros d Ho Hp.
    rewrite (qflash_enabled_ext E d2 d g3 Ho Hp).
    pose proof (qflash_enabled_again E d2 (globals w2)) as Ha.
    rewrite He2 in Ha. exact Ha. }
  destruct (en2 && is_NULL (totaltime d2)) eqn:Halloc.
  - apply andb_true_iff in Halloc as [Hen2 Hnull].
    destruct (totaltime d2) as [i|] eqn:Htt; [discriminate Hnull|].
    revert Hrun. run_step. intros Hrun. inversion Hrun; subst queryDesc' w'.
    cbn [globals calls]. split; [reflexivity|].
    split; [destruct d2; cbn in *; subst; reflexivity|].
    split; [intros H; destruct (H eq_refl)|].
    split; [right; rewrite <- !app_assoc; reflexivity|].
    split; [intros _; discriminate|].
    cbn [fst]. split; [intros H; congruence|].
    intros _ _. split; [reflexivity|].
    rewrite <- !app_assoc. reflexivity.
  - revert Hrun. unfold ret. intros Hrun. inversion Hrun; subst queryDesc' w'.
    cbn [globals calls]. split; [reflexivity|].
    split; [destruct d2; reflexivity|].
    split; [intros _; split; reflexivity|].
    split; [left; reflexivity|].
    split.
    { rewrite (Hagain d2 eq_refl eq_refl). cbn [fst]. intros Hen2.
      subst en2. cbn [andb] in Halloc.
      destruct (totaltime d2); [discriminate|].
      cbn in Halloc. discriminate Halloc. }
    cbn [fst]. split; [intros _; split; reflexivity|].
    intros Hen2 Hnull. subst en2. rewrite Hnull in Halloc.
    cbn in Halloc. discriminate Halloc.
Qed.

Lemma explain_ExecutorStart_result_witness :
  let started :=
    explain_ExecutorStart demo_engine None standard_ExecutorStart
      (set_totaltime None (demo_query CMD_SELECT [16390] 0.5%float))
      0 (demo_world demo_globals) in
  exists queryDesc' w',
    started = (Returned queryDesc', w')
    /\ totaltime queryDesc' <> None
    /\ Z.land (instrument_options queryDesc') INSTRUMENT_ALL = INSTRUMENT_ALL.
Proof.
  cbv zeta.
  destruct (explain_ExecutorStart demo_engine None standard_ExecutorStart
              (set_totaltime None (demo_query CMD_SELECT [16390] 0.5%float))
              0 (demo_world demo_globals)) as [[queryDesc'|msg|] w'] eqn:Hrun;
    [|vm_compute in Hrun; discriminate Hrun
     |vm_compute in Hrun; discriminate Hrun].
  exists queryDesc', w'. split; [reflexivity|].
  destruct (explain_ExecutorStart_result demo_engine None
              standard_ExecutorStart
              (set_totaltime None (demo_query CMD_SELECT [16390] 0.5%float))
              0 (demo_world demo_globals) queryDesc' w' Hrun)
    as (d2 & w2 & _ & _ & _ & _ & _ & _ & Hrec & _).
  vm_compute in Hrun. inversion Hrun; subst queryDesc' w'.
  split; [apply Hrec; vm_compute; reflexivity|reflexivity].
Defined.

(** ** The logging routine, step by step *)

(** The run of [log_InRelation], with the four answers it depends on
    named: each failure stops it at that step. *)
Lemma log_InRelation_run (E : Engine) (es : ExplainState)
    (queryDesc : QueryDesc) (instr : Instrumentation) (w : World) :
  totaltime queryDesc = Some instr ->
  let g' :=
    with_nesting_spi_level (nesting_level (globals w)) (globals w) in
  let failed := execute_plan_failed (generate_insert_log_query (globals w))
                  (sourceText queryDesc) in
  log_InRelation E es queryDesc w
  = if connect_fails E w then
      (Raised "SPI_connect failed",
       {| globals := g'; calls := history_at_prepare w |})
    else if prepare_fails E w then
      (Raised failed, {| globals := g'; calls := history_at_execute w |})
    else if execute_fails E w then
      (Raised failed,
       {| globals := g';
          calls := history_at_finish w es queryDesc instr |})
    else if finish_fails E w es queryDesc instr then
      (Raised "SPI_finish failed",
       {| globals := g';
          calls := (history_at_finish w es queryDesc instr
                    ++ [C_SPI_finish])%list |})
    else
      (Returned tt,
       {| globals := g';
          calls := (history_at_finish w es queryDesc instr
                    ++ [C_SPI_finish])%list |}).
Proof.
  intros Ht. cbv zeta.
  unfold connect_fails, prepare_fails, execute_fails, finish_fails,
    history_at_finish, history_at_execute, history_at_prepare,
    history_at_connect, connects, execute_call, prepare_call, log_record,
    steps_for, log_InRelation, log_InRelation_running, connect_at_depth.
  rewrite Ht. destruct w as [g cs]. run_step.
  destruct (nesting_spi_level g <? nesting_level g) eqn:Hlt; run_step.
  - cbn [with_nesting_spi_level nesting_spi_level nesting_level].
    assert (Hgt : (nesting_level g >? nesting_level g) = false)
      by (rewrite Z.gtb_ltb; apply Z.ltb_irrefl).
    assert (Hgt' : (nesting_spi_level g >? nesting_level g) = false)
      by (rewrite Z.gtb_ltb; apply Z.ltb_ge; apply Z.ltb_lt in Hlt; lia).
    rewrite Hgt, Hgt'. run_step. cbn [negb andb].
    replace (with_nesting_spi_level (nesting_level g)
               (with_nesting_spi_level (nesting_level g) g))
      with (with_nesting_spi_level (nesting_level g) g)
      by (destruct g; reflexivity).
    rewrite <- !app_assoc. cbn [app].
    repeat (match goal with
            | |- context [if ?b then _ else _] =>
                lazymatch b with
                | context [if _ then _ else _] => fail
                | _ => destruct b eqn:?
                end
            end; run_step; cbn [negb andb]; rewrite <- ?app_assoc;
            cbn [app]); reflexivity.
  - destruct (nesting_spi_level g >? nesting_level g) eqn:Hgt; run_step;
      cbn [negb andb]; rewrite <- ?app_assoc; cbn [app];
      rewrite ?app_nil_r.
    + repeat (match goal with
              | |- context [if ?b then _ else _] =>
                  lazymatch b with
                  | context [if _ then _ else _] => fail
                  | _ => destruct b eqn:?
                  end
              end; run_step; cbn [negb andb]; rewrite <- ?app_assoc;
              cbn [app]); reflexivity.
    + assert (Heq : nesting_level g = nesting_spi_level g)
        by (rewrite Z.gtb_ltb in Hgt; apply Z.ltb_ge in Hlt, Hgt; lia).
      rewrite Heq, with_nesting_spi_level_same.
      repeat (match goal with
              | |- context [if ?b then _ else _] =>
                  lazymatch b with
                  | context [if _ then _ else _] => fail
                  | _ => destruct b eqn:?
                  end
              end; run_step; cbn [negb andb]; rewrite <- ?app_assoc;
              cbn [app]); reflexivity.
Qed.

Lemma count_call_app (c : Call -> bool) (cs ds : list Call) :
  count_call c (cs ++ ds) = (count_call c cs + count_call c ds)%nat.
Proof. unfold count_call. rewrite filter_app, length_app. reflexivity. Qed.

Lemma count_call_single (c : Call -> bool) (x : Call) :
  count_call c [x] = if c x then 1%nat else 0%nat.
Proof.
  unfold count_call. rewrite filter_cons, filter_nil.
  destruct (decide (c x = true)) as [H|H]; destruct (c x);
    try reflexivity; congruence.
Qed.

Lemma count_steps_for_finish (g : Globals) :
  count_call is_SPI_finish (steps_for g) = 0%nat.
Proof.
  unfold steps_for. destruct (_ <? _); [reflexivity|].
  destruct (_ >? _); reflexivity.
Qed.

Lemma count_steps_for_connect (g : Globals) :
  count_call is_SPI_connect (steps_for g)
  = if connects g then 1%nat else 0%nat.
Proof.
  unfold steps_for, connects.
  destruct (nesting_spi_level g <? nesting_level g) eqn:Hlt.
  - assert (H : (nesting_spi_level g >? nesting_level g) = false)
      by (rewrite Z.gtb_ltb; apply Z.ltb_ge; apply Z.ltb_lt in Hlt; lia).
    rewrite H. reflexivity.
  - destruct (_ >? _); reflexivity.
Qed.

Lemma log_records_steps_for (g : Globals) : log_records (steps_for g) = [].
Proof.
  unfold steps_for. destruct (_ <? _); [reflexivity|].
  destruct (_ >? _); reflexivity.
Qed.

(** X10.  With a descriptor that has its instrumentation record,
    [log_InRelation] never hits a null pointer; it returns exactly when none
    of its SPI steps fails, and then the calls it has made are the
    connection steps for the depths found, the prepare of the INSERT with
    four parameters, its execution with the row for one tuple, and
    [SPI_finish], in this order. *)
Theorem log_InRelation_returns_iff (E : Engine) (es : ExplainState)
    (queryDesc : QueryDesc) (instr : Instrumentation) (w : World) :
  totaltime queryDesc = Some instr ->
  fst (log_InRelation E es queryDesc w) <> Crashed
  /\ (fst (log_InRelation E es queryDesc w) = Returned tt
      <-> connect_fails E w = false /\ prepare_fails E w = false
          /\ execute_fails E w = false
          /\ finish_fails E w es queryDesc instr = false)
  /\ (fst (log_InRelation E es queryDesc w) = Returned tt ->
      calls (snd (log_InRelation E es queryDesc w))
      = (calls w ++ steps_for (globals w)
         ++ [prepare_call (globals w);
             execute_call (globals w) es queryDesc instr;
             C_SPI_finish])%list).
Proof.
  intros Ht. rewrite (log_InRelation_run E es queryDesc instr w Ht).
  cbv zeta.
  destruct (connect_fails E w), (prepare_fails E w), (execute_fails E w),
    (finish_fails E w es queryDesc instr); cbn [fst snd calls];
    (split; [discriminate|]);
    (split; [split; [try discriminate; tauto|
                     intros (? & ? & ? & ?); try discriminate; reflexivity]|]);
    try discriminate.
  intros _. unfold history_at_finish, history_at_execute, history_at_prepare.
  rewrite <- !app_assoc. reflexivity.
Qed.

Lemma log_InRelation_returns_iff_witness :
  calls (snd (log_InRelation demo_engine NewExplainState
                (demo_query CMD_SELECT [16390] 0.5%float)
                (demo_world (with_nesting_level 1 demo_resolved))))
  = [C_SPI_push; C_SPI_connect;
     prepare_call demo_resolved;
     execute_call demo_resolved NewExplainState
       (demo_query CMD_SELECT [16390] 0.5%float) {| total := 0.5%float |};
     C_SPI_finish].
Proof.
  destruct (log_InRelation_returns_iff demo_engine NewExplainState
              (demo_query CMD_SELECT [16390] 0.5%float)
              {| total := 0.5%float |}
              (demo_world (with_nesting_level 1 demo_resolved)) eq_refl)
    as (_ & _ & H).
  rewrite H by (vm_compute; reflexivity). vm_compute. reflexivity.
Defined.

(** X11.  A failure of [log_InRelation] before its last step leaves the
    SPI context unfinished: when it raises any error other than the one for
    [SPI_finish], it has not called [SPI_finish].  A failed connect is
    reported before anything is prepared and no row is handed over; a failed
    prepare hands no row over either, and is reported with the text used for
    a failed execution. *)
Theorem log_InRelation_error_paths (E : Engine) (es : ExplainState)
    (queryDesc : QueryDesc) (instr : Instrumentation) (w : World) :
  totaltime queryDesc = Some instr ->
  let run := log_InRelation E es queryDesc w in
  let failed := execute_plan_failed (generate_insert_log_query (globals w))
                  (sourceText queryDesc) in
  (forall msg,
      fst run = Raised msg -> msg <> "SPI_finish failed" ->
      count_call is_SPI_finish (calls (snd run))
      = count_call is_SPI_finish (calls w))
  /\ (connect_fails E w = true ->
      fst run = Raised "SPI_connect failed"
      /\ calls (snd run) = (calls w ++ steps_for (globals w))%list
      /\ log_records (calls (snd run)) = log_records (calls w))
  /\ (connect_fails E w = false -> prepare_fails E w = true ->
      fst run = Raised failed
      /\ log_records (calls (snd run)) = log_records (calls w))
  /\ (connect_fails E w = false -> prepare_fails E w = false ->
      execute_fails E w = true ->
      fst run = Raised failed
      /\ log_records (calls (snd run))
         = (log_records (calls w)
            ++ [log_record (globals w) es queryDesc instr])%list).
Proof.
  intros Ht run failed. unfold run.
  rewrite (log_InRelation_run E es queryDesc instr w Ht). cbv zeta.
  fold failed.
  assert (Hfin : count_call is_SPI_finish (history_at_finish w es queryDesc instr)
                 = count_call is_SPI_finish (calls w)).
  { unfold history_at_finish, history_at_execute, history_at_prepare.
    rewrite !count_call_app, count_steps_for_finish, !count_call_single.
    cbn. lia. }
  assert (Hfin2 : count_call is_SPI_finish (history_at_execute w)
                  = count_call is_SPI_finish (calls w)).
  { unfold history_at_execute, history_at_prepare.
    rewrite !count_call_app, count_steps_for_finish, !count_call_single.
    cbn. lia. }
  assert (Hfin3 : count_call is_SPI_finish (history_at_prepare w)
                  = count_call is_SPI_finish (calls w)).
  { unfold history_at_prepare.
    rewrite !count_call_app, count_steps_for_finish. lia. }
  assert (Hrec : log_records (history_at_execute w) = log_records (calls w)).
  { unfold history_at_execute, history_at_prepare.
    rewrite !log_records_app, log_records_steps_for. cbn.
    rewrite !app_nil_r. reflexivity. }
  assert (Hrec0 : log_records (history_at_prepare w) = log_records (calls w)).
  { unfold history_at_prepare.
    rewrite !log_records_app, log_records_steps_for.
    rewrite !app_nil_r. reflexivity. }
  split; [|split; [|split]].
  - intros msg.
    destruct (connect_fails E w); [intros _ _; exact Hfin3|].
    destruct (prepare_fails E w); [intros _ _; exact Hfin2|].
    destruct (execute_fails E w); [intros _ _; exact Hfin|].
    destruct (finish_fails E w es queryDesc instr); cbn [fst snd calls];
      [|discriminate].
    intros Hm Hne. inversion Hm. congruence.
  - intros Hc. rewrite Hc. cbn [fst snd calls].
    split; [reflexivity|]. split; [reflexivity|exact Hrec0].
  - intros Hc Hp. rewrite Hc, Hp. cbn [fst snd calls].
    split; [reflexivity|exact Hrec].
  - intros Hc Hp Hx. rewrite Hc, Hp, Hx. cbn [fst snd calls].
    split; [reflexivity|].
    unfold history_at_finish. rewrite log_records_app, Hrec.
    reflexivity.
Qed.

Lemma log_InRelation_error_paths_witness :
  let E := demo_engine_answering SPI_OK_CONNECT false 1 SPI_OK_UTILITY
             SPI_OK_FINISH in
  let run :=
    log_InRelation E NewExplainState
      (demo_query CMD_SELECT [16390] 0.5%float) (demo_world demo_resolved) in
  fst run
  = Raised (execute_plan_failed (generate_insert_log_query demo_resolved)
              "select 1")
  /\ log_records (calls (snd run)) = []
  /\ count_call is_SPI_finish (calls (snd run)) = 0%nat.
Proof.
  cbv zeta.
  destruct (log_InRelation_error_paths
              (demo_engine_answering SPI_OK_CONNECT false 1 SPI_OK_UTILITY
                 SPI_OK_FINISH)
              NewExplainState (demo_query CMD_SELECT [16390] 0.5%float)
              {| total := 0.5%float |} (demo_world demo_resolved) eq_refl)
    as (Hfin & _ & Hprep & _).
  destruct Hprep as [Hmsg Hrec]; [reflexivity|reflexivity|].
  split; [exact Hmsg|]. split; [exact Hrec|].
  apply (Hfin _ Hmsg). vm_compute. discriminate.
Defined.

(** X12.  When [log_InRelation] returns it has called [SPI_finish] once.
    It has called [SPI_connect] once as well, except when the connection
    depth was above the execution depth: then it has popped instead, and
    the [SPI_finish] has no [SPI_connect] of this call to go with. *)
Theorem log_InRelation_connect_finish (E : Engine) (es : ExplainState)
    (queryDesc : QueryDesc) (instr : Instrumentation) (w : World) :
  totaltime queryDesc = Some instr ->
  fst (log_InRelation E es queryDesc w) = Returned tt ->
  let cs' := calls (snd (log_InRelation E es queryDesc w)) in
  count_call is_SPI_finish cs'
  = (count_call is_SPI_finish (calls w) + 1)%nat
  /\ (nesting_spi_level (globals w) <= nesting_level (globals w) ->
      count_call is_SPI_connect cs'
      = (count_call is_SPI_connect (calls w) + 1)%nat)
  /\ (nesting_spi_level (globals w) > nesting_level (globals w) ->
      count_call is_SPI_connect cs' = count_call is_SPI_connect (calls w)).
Proof.
  intros Ht. rewrite (log_InRelation_run E es queryDesc instr w Ht).
  cbv zeta.
  destruct (connect_fails E w); [discriminate|].
  destruct (prepare_fails E w); [discriminate|].
  destruct (execute_fails E w); [discriminate|].
  destruct (finish_fails E w es queryDesc instr); [discriminate|].
  intros _. cbn [snd calls].
  unfold history_at_finish, history_at_execute, history_at_prepare.
  rewrite !count_call_app, count_steps_for_finish, count_steps_for_connect,
    !count_call_single.
  cbn [is_SPI_finish is_SPI_connect prepare_call execute_call].
  unfold connects.
  split; [lia|]. split; intros Hcmp.
  - assert (H : (nesting_spi_level (globals w) >? nesting_level (globals w))
                = false) by (rewrite Z.gtb_ltb; apply Z.ltb_ge; lia).
    rewrite H. cbn. lia.
  - assert (H : (nesting_spi_level (globals w) >? nesting_level (globals w))
                = true) by (rewrite Z.gtb_ltb; apply Z.ltb_lt; lia).
    rewrite H. cbn. lia.
Qed.

Lemma log_InRelation_connect_finish_witness :
  let w := demo_world (with_nesting_spi_level 1 demo_resolved) in
  let cs' :=
    calls (snd (log_InRelation demo_engine NewExplainState
                  (demo_query CMD_SELECT [16390] 0.5%float) w)) in
  count_call is_SPI_finish cs' = 1%nat
  /\ count_call is_SPI_connect cs' = 0%nat.
Proof.
  cbv zeta.
  destruct (log_InRelation_connect_finish demo_engine NewExplainState
              (demo_query CMD_SELECT [16390] 0.5%float)
              {| total := 0.5%float |}
              (demo_world (with_nesting_spi_level 1 demo_resolved))
              eq_refl) as (Hf & _ & Hc); [vm_compute; reflexivity|].
  split; [exact Hf|]. apply Hc. vm_compute. reflexivity.
Defined.

(** ** The end hook, further *)

Lemma log_InRelation_no_crash (E : Engine) (es : ExplainState)
    (queryDesc : QueryDesc) (instr : Instrumentation) (w : World) :
  totaltime queryDesc = Some instr ->
  fst (log_InRelation E es queryDesc w) <> Crashed.
Proof.
  intros Ht. rewrite (log_InRelation_run E es queryDesc instr w Ht).
  cbv zeta.
  destruct (connect_fails E w); [discriminate|].
  destruct (prepare_fails E w); [discriminate|].
  destruct (execute_fails E w); [discriminate|].
  destruct (finish_fails E w es queryDesc instr); discriminate.
Qed.

(** X13.  With a chain that does not crash, the end hook ends in a read
    through a null pointer exactly when the statement is eligible and its
    descriptor has no instrumentation record.  The read is inside
    [InstrEndLoop], which line 322 calls with the null pointer: that call is
    the only one the hook has made by then, and the globals are as the
    eligibility test left them. *)
Theorem explain_ExecutorEnd_crashes_iff (E : Engine)
    (prev_ExecutorEnd : option (QueryDesc -> M unit))
    (standard_ExecutorEnd : QueryDesc -> M unit)
    (queryDesc : QueryDesc) (w : World) :
  (forall d, never_crashes (ExecutorEnd_chain prev_ExecutorEnd
                              standard_ExecutorEnd d)) ->
  (fst (explain_ExecutorEnd E prev_ExecutorEnd standard_ExecutorEnd
          queryDesc w) = Crashed
   <-> fst (qflash_enabled E queryDesc (globals w)) = true
       /\ totaltime queryDesc = None)
  /\ (fst (qflash_enabled E queryDesc (globals w)) = true ->
      totaltime queryDesc = None ->
      snd (explain_ExecutorEnd E prev_ExecutorEnd standard_ExecutorEnd
             queryDesc w)
      = {| globals := snd (qflash_enabled E queryDesc (globals w));
           calls := calls w ++ [C_InstrEndLoop] |}).
Proof.
  intros Hchain.
  destruct (qflash_enabled E queryDesc (globals w)) as [[|] g'] eqn:He;
    cbn [fst].
  - destruct (totaltime queryDesc) as [instr|] eqn:Ht.
    + split; [|discriminate].
      split; [|intros [_ H]; discriminate H].
      intros Hcrash. exfalso. revert Hcrash.
      destruct (total (InstrEndLoop E instr) * 1000
                <=? qflash_log_min_duration g')%float eqn:Hd.
      * rewrite (explain_ExecutorEnd_fast E _ _ queryDesc w g' instr He Ht Hd).
        discriminate.
      * rewrite (explain_ExecutorEnd_slow E _ _ queryDesc w g' instr He Ht Hd).
        cbv zeta. unfold bind at 1.
        pose proof (log_InRelation_no_crash E
                      (logged_plan E
                         (set_totaltime (Some (InstrEndLoop E instr))
                            queryDesc))
                      (set_totaltime (Some (InstrEndLoop E instr)) queryDesc)
                      (InstrEndLoop E instr)
                      {| globals := g'; calls := calls w ++ [C_InstrEndLoop] |}
                      eq_refl) as Hlog.
        destruct (log_InRelation E _ _ _) as [[[]|msg|] w1]; cbn [fst] in *;
          [|discriminate|destruct (Hlog eq_refl)].
        unfold bind, call. cbn [globals calls]. apply Hchain.
    + assert (Hrun : explain_ExecutorEnd E prev_ExecutorEnd
                       standard_ExecutorEnd queryDesc w
                     = (Crashed, {| globals := g';
                                    calls := calls w ++ [C_InstrEndLoop] |})).
      { unfold explain_ExecutorEnd, explain_ExecutorEnd_running. run_step.
        rewrite He, Ht. reflexivity. }
      rewrite Hrun. cbn [fst snd calls]. split; [tauto|reflexivity].
  - rewrite (explain_ExecutorEnd_skipped E _ _ queryDesc w g' He).
    split; [|discriminate].
    split; [intros H; destruct (Hchain _ _ H)|intros [H _]; discriminate H].
Qed.

Lemma explain_ExecutorEnd_crashes_iff_witness :
  explain_ExecutorEnd demo_engine None standard_ExecutorEnd
    (set_totaltime None (demo_query CMD_SELECT [16390] 0.5%float))
    (demo_world demo_resolved)
  = (Crashed, {| globals := demo_resolved; calls := [C_InstrEndLoop] |}).
Proof.
  destruct (explain_ExecutorEnd_crashes_iff demo_engine None
              standard_ExecutorEnd
              (set_totaltime None (demo_query CMD_SELECT [16390] 0.5%float))
              (demo_world demo_resolved)) as (H & Hw).
  - intros d w. vm_compute. discriminate.
  - apply injective_projections.
    + apply H. split; vm_compute; reflexivity.
    + rewrite Hw; vm_compute; reflexivity.
Defined.

(** X14.  When the logging of an eligible statement above the threshold
    raises an error, the end hook raises that error with the globals and
    calls the logging left: the plan text is not freed, and the rest of the
    chain is not run. *)
Theorem explain_ExecutorEnd_logging_error (E : Engine)
    (prev_ExecutorEnd : option (QueryDesc -> M unit))
    (standard_ExecutorEnd : QueryDesc -> M unit)
    (queryDesc : QueryDesc) (instr : Instrumentation) (w : World)
    (g' : Globals) (msg : string) (w1 : World) :
  qflash_enabled E queryDesc (globals w) = (true, g') ->
  totaltime queryDesc = Some instr ->
  (total (InstrEndLoop E instr) * 1000 <=? qflash_log_min_duration g')%float
    = false ->
  let queryDesc' := set_totaltime (Some (InstrEndLoop E instr)) queryDesc in
  log_InRelation E (logged_plan E queryDesc') queryDesc'
    {| globals := g'; calls := calls w ++ [C_InstrEndLoop] |}
  = (Raised msg, w1) ->
  explain_ExecutorEnd E prev_ExecutorEnd standard_ExecutorEnd queryDesc w
  = (Raised msg, w1)
  /\ ~ In C_pfree (skipn (length (calls w)) (calls w1)).
Proof.
  intros He Ht Hd queryDesc' Hlog.
  rewrite (explain_ExecutorEnd_slow E _ _ queryDesc w g' instr He Ht Hd).
  cbv zeta. fold queryDesc'. unfold bind at 1. rewrite Hlog.
  split; [reflexivity|].
  pose proof (log_InRelation_run E (logged_plan E queryDesc') queryDesc'
                (InstrEndLoop E instr)
                {| globals := g'; calls := calls w ++ [C_InstrEndLoop] |}
                eq_refl) as Hrun.
  cbv zeta in Hrun. rewrite Hlog in Hrun.
  assert (Hcalls :
            exists extra,
              calls w1 = (calls w ++ extra)%list /\ ~ In C_pfree extra).
  { unfold history_at_finish, history_at_execute, history_at_prepare,
      steps_for, execute_call, prepare_call in Hrun.
    cbn [globals calls] in Hrun.
    repeat match type of Hrun with
           | context [if ?b then _ else _] =>
               lazymatch b with
               | context [if _ then _ else _] => fail
               | _ => destruct b
               end
           end;
      inversion Hrun; rewrite <- ?app_assoc; cbn [app];
      eexists; (split; [reflexivity|]); cbn;
      intuition discriminate. }
  destruct Hcalls as (extra & -> & Hno).
  rewrite skipn_app, Nat.sub_diag, skipn_all. cbn [app skipn]. exact Hno.
Qed.

Lemma explain_ExecutorEnd_logging_error_witness :
  let E := demo_engine_answering (-1) true 1 SPI_OK_UTILITY SPI_OK_FINISH in
  explain_ExecutorEnd E None standard_ExecutorEnd
    (demo_query CMD_SELECT [16390] 0.5%float) (demo_world demo_resolved)
  = (Raised "SPI_connect failed",
     {| globals := demo_resolved;
        calls := [C_InstrEndLoop; C_SPI_connect] |}).
Proof.
  cbv zeta.
  refine (proj1 (explain_ExecutorEnd_logging_error
                   (demo_engine_answering (-1) true 1 SPI_OK_UTILITY
                      SPI_OK_FINISH)
                   None standard_ExecutorEnd
                   (demo_query CMD_SELECT [16390] 0.5%float)
                   {| total := 0.5%float |} (demo_world demo_resolved)
                   demo_resolved "SPI_connect failed"
                   {| globals := demo_resolved;
                      calls := [C_InstrEndLoop; C_SPI_connect] |}
                   _ _ _ _));
    vm_compute; reflexivity.
Defined.

(** ** Creating the sink table, further *)

(** X15.  [qflash_init] never returns false and never changes the globals.
    It ends in a read off the readable memory exactly when [%s] finds no
    zero byte at one of its two arguments, and has called nothing by then.
    Otherwise, with the two names as read, it returns true exactly when the
    connect, the DDL and the finish all succeed, and raises an error when
    one does not; when the connect fails no DDL is sent; when the DDL fails
    [SPI_finish] is not called. *)
Theorem qflash_init_outcomes (E : Engine)
    (namespace_name relname_name : text) (w : World) :
  let run := qflash_init E namespace_name relname_name w in
  fst run <> Returned false
  /\ globals (snd run) = globals w
  /\ (fst run = Crashed
      <-> c_string (VARDATA namespace_name) = None
          \/ c_string (VARDATA relname_name) = None)
  /\ (fst run = Crashed -> calls (snd run) = calls w)
  /\ (forall namespace_read relname_read,
         c_string (VARDATA namespace_name) = Some namespace_read ->
         c_string (VARDATA relname_name) = Some relname_read ->
         let ddl :=
           C_SPI_execute (ddl_query namespace_read relname_read) false 1 in
         let connected := SPI_connect E (calls w) =? SPI_OK_CONNECT in
         let created :=
           SPI_execute E (calls w ++ [C_SPI_connect]) =? SPI_OK_UTILITY in
         let finished :=
           SPI_finish E (calls w ++ [C_SPI_connect; ddl]) =? SPI_OK_FINISH in
         (fst run = Returned true
          <-> connected = true /\ created = true /\ finished = true)
         /\ (connected = false ->
             fst run = Raised "SPI_connect failed"
             /\ calls (snd run) = (calls w ++ [C_SPI_connect])%list)
         /\ (connected = true -> created = false ->
             fst run = Raised "SPI_execute DDL failed"
             /\ calls (snd run) = (calls w ++ [C_SPI_connect; ddl])%list)
         /\ (connected = true -> created = true -> finished = false ->
             fst run = Raised "SPI_finish failed")
         /\ (connected = true -> created = true ->
             calls (snd run)
             = (calls w ++ [C_SPI_connect; ddl; C_SPI_finish])%list)).
Proof.
  cbv zeta. unfold qflash_init.
  destruct (c_string (VARDATA namespace_name)) as [ns|];
    [destruct (c_string (VARDATA relname_name)) as [rn|]|].
  - destruct w as [g cs]. run_step.
    assert (Hrun :
              forall ns' rn', Some ns = Some ns' -> Some rn = Some rn' ->
                              ns' = ns /\ rn' = rn)
      by (intros ns' rn' H1 H2; split; congruence).
    destruct (SPI_connect E cs =? SPI_OK_CONNECT) eqn:Hc;
      cbn [negb globals calls fst snd].
    + rewrite <- !app_assoc. cbn [app].
      destruct (SPI_execute E (cs ++ [C_SPI_connect]) =? SPI_OK_UTILITY)
        eqn:Hx; cbn [negb globals calls fst snd].
      * rewrite <- !app_assoc. cbn [app].
        destruct (SPI_finish E _ =? SPI_OK_FINISH) eqn:Hf;
          cbn [negb globals calls fst snd];
          (split; [discriminate|]); (split; [reflexivity|]);
          (split; [split; [discriminate|intros [H|H]; discriminate H]|]);
          (split; [discriminate|]);
          intros ns' rn' H1 H2; destruct (Hrun ns' rn' H1 H2); subst ns' rn';
          rewrite ?Hf;
          repeat split; try discriminate; try reflexivity; try tauto;
          try (intros (_ & _ & H); discriminate H);
          rewrite <- ?app_assoc; reflexivity.
      * (split; [discriminate|]); (split; [reflexivity|]);
          (split; [split; [discriminate|intros [H|H]; discriminate H]|]);
          (split; [discriminate|]);
          intros ns' rn' H1 H2; destruct (Hrun ns' rn' H1 H2); subst ns' rn';
          repeat split; try discriminate; try reflexivity; try tauto;
          try (intros (_ & H & _); discriminate H);
          rewrite <- ?app_assoc; reflexivity.
    + (split; [discriminate|]); (split; [reflexivity|]);
        (split; [split; [discriminate|intros [H|H]; discriminate H]|]);
        (split; [discriminate|]);
        intros ns' rn' H1 H2; destruct (Hrun ns' rn' H1 H2); subst ns' rn';
        repeat split; try discriminate; try reflexivity; try tauto;
        intros (H & _); discriminate H.
  - run_step. split; [discriminate|]. split; [reflexivity|].
    split; [split; [right; reflexivity|reflexivity]|].
    split; [reflexivity|]. intros ns' rn' _ H. discriminate H.
  - run_step. split; [discriminate|]. split; [reflexivity|].
    split; [split; [left; reflexivity|reflexivity]|].
    split; [reflexivity|]. intros ns' rn' H. discriminate H.
Qed.

Lemma qflash_init_outcomes_witness :
  let public := {| vl_dat := list_ascii_of_string "public";
                   beyond := [NUL] |} in
  let qflash_log := {| vl_dat := list_ascii_of_string "qflash_log";
                       beyond := [NUL] |} in
  let unterminated := {| vl_dat := list_ascii_of_string "qflash_log";
                         beyond := list_ascii_of_string "ed" |} in
  qflash_init
    (demo_engine_answering SPI_OK_CONNECT true 1 (-1) SPI_OK_FINISH)
    public qflash_log (demo_world initial_globals)
  = (Raised "SPI_execute DDL failed",
     {| globals := initial_globals;
        calls := [C_SPI_connect;
                  C_SPI_execute (ddl_query "public" "qflash_log") false 1] |})
  /\ fst (qflash_init demo_engine public unterminated
            (demo_world initial_globals)) = Crashed.
Proof.
  cbv zeta. split.
  - destruct (qflash_init_outcomes
                (demo_engine_answering SPI_OK_CONNECT true 1 (-1)
                   SPI_OK_FINISH)
                {| vl_dat := list_ascii_of_string "public"; beyond := [NUL] |}
                {| vl_dat := list_ascii_of_string "qflash_log";
                   beyond := [NUL] |}
                (demo_world initial_globals))
      as (_ & Hg & _ & _ & Hread).
    destruct (Hread "public" "qflash_log" eq_refl eq_refl)
      as (_ & _ & H & _).
    destruct H as [Hmsg Hcalls]; [reflexivity|reflexivity|].
    apply injective_projections; cbn [fst snd]; [exact Hmsg|].
    destruct (snd (qflash_init _ _ _ _)) as [g cs].
    cbn [globals calls] in *. subst g cs. reflexivity.
  - destruct (qflash_init_outcomes demo_engine
                {| vl_dat := list_ascii_of_string "public"; beyond := [NUL] |}
                {| vl_dat := list_ascii_of_string "qflash_log";
                   beyond := list_ascii_of_string "ed" |}
                (demo_world initial_globals))
      as (_ & _ & Hcrash & _).
    apply Hcrash. right. reflexivity.
Defined.

(** ** Loading and unloading *)

(** X16.  Unloading puts back the four executor hooks that were found at
    load time, whatever other modules installed in between (a hook
    installed on top of this file's is dropped); the six configuration
    variables defined at load time stay defined. *)
Theorem PG_fini_restores_hooks (b : Backend) (later : Backend -> Backend) :
  (forall t, saved_hooks (later t) = saved_hooks t) ->
  (forall t, custom_variables (later t) = custom_variables t) ->
  executor_hooks (_PG_init b)
  = [Some QFlash_hook; Some QFlash_hook; Some QFlash_hook; Some QFlash_hook]
  /\ saved_hooks (_PG_init b) = executor_hooks b
  /\ executor_hooks (_PG_fini (later (_PG_init b))) = executor_hooks b
  /\ custom_variables (_PG_fini (later (_PG_init b)))
     = (custom_variables b ++ qflash_variables)%list.
Proof.
  intros Hsaved Hvars. split; [reflexivity|]. split; [reflexivity|]. split.
  - change (executor_hooks (_PG_fini (later (_PG_init b))))
      with (saved_hooks (later (_PG_init b))).
    rewrite Hsaved. reflexivity.
  - change (custom_variables (_PG_fini (later (_PG_init b))))
      with (custom_variables (later (_PG_init b))).
    rewrite Hvars. reflexivity.
Qed.

Lemma PG_fini_restores_hooks_witness :
  let b :=
    {| ExecutorStart_hook := Some (Foreign_hook 1);
       ExecutorRun_hook := None;
       ExecutorFinish_hook := None;
       ExecutorEnd_hook := Some (Foreign_hook 1);
       saved_ExecutorStart := None;
       saved_ExecutorRun := None;
       saved_ExecutorFinish := None;
       saved_ExecutorEnd := None;
       custom_variables := [] |} in
  let later t :=
    {| ExecutorStart_hook := ExecutorStart_hook t;
       ExecutorRun_hook := Some (Foreign_hook 2);
       ExecutorFinish_hook := ExecutorFinish_hook t;
       ExecutorEnd_hook := ExecutorEnd_hook t;
       saved_ExecutorStart := saved_ExecutorStart t;
       saved_ExecutorRun := saved_ExecutorRun t;
       saved_ExecutorFinish := saved_ExecutorFinish t;
       saved_ExecutorEnd := saved_ExecutorEnd t;
       custom_variables := custom_variables t |} in
  executor_hooks (_PG_fini (later (_PG_init b)))
  = [Some (Foreign_hook 1); None; None; Some (Foreign_hook 1)].
Proof.
  cbv zeta.
  refine (proj1 (proj2 (proj2 (PG_fini_restores_hooks _ _ _ _))));
    intros t; reflexivity.
Defined.

(** ** The brace repair at its edges *)

(** X17.  The brace repair has no result on the empty text (its second
    store would fall before the buffer) and one on every other text; on a
    text of one character both stores hit that character and the closing
    brace stays; on longer texts every character but the first and the last
    is kept.  In JSON format, [fixup_plan] removes the last line break first,
    so on a plan text that is empty or a lone line break it makes that store
    before the buffer, which the model counts as a crash. *)
Theorem fix_json_edges (data : list ascii) :
  (fix_json data = None <-> data = [])
  /\ (forall c, fix_json [c] = Some [rbrace])
  /\ (forall repaired i,
         fix_json data = Some repaired ->
         (0 < i < length data - 1)%nat ->
         repaired !! i = data !! i)
  /\ (forall es w,
         format es = EXPLAIN_FORMAT_JSON ->
         str es = [] \/ str es = [newline] ->
         fixup_plan es w = (Crashed, w))
  /\ (forall es w,
         format es = EXPLAIN_FORMAT_JSON ->
         remove_last_line_break (str es) <> [] ->
         exists repaired,
           fix_json (remove_last_line_break (str es)) = Some repaired
           /\ fixup_plan es w = (Returned (set_str repaired es), w)).
Proof.
  split; [|split; [|split; [|split]]].
  - unfold fix_json. destruct data; cbn; split; intros H;
      try reflexivity; discriminate H.
  - intros c. reflexivity.
  - intros repaired i Hfix Hi. unfold fix_json in Hfix.
    destruct (length data =? 0)%nat; [discriminate|].
    inversion Hfix; subst repaired.
    rewrite !list_lookup_insert_ne by lia. reflexivity.
  - intros es w Hf Hs. unfold fixup_plan. cbn [format set_str str].
    rewrite Hf. destruct Hs as [-> | ->]; reflexivity.
  - intros es w Hf Hne. unfold fixup_plan. cbn [format set_str str].
    rewrite Hf. cbn [ExplainFormat_eqb].
    destruct (fix_json (remove_last_line_break (str es))) as [r|] eqn:Hfix.
    + exists r. split; reflexivity.
    + unfold fix_json in Hfix.
      destruct (remove_last_line_break (str es)); [congruence|].
      discriminate Hfix.
Qed.

Lemma fix_json_edges_witness :
  fixup_plan (set_format EXPLAIN_FORMAT_JSON (set_str [newline] NewExplainState))
    (demo_world initial_globals)
  = (Crashed, demo_world initial_globals)
  /\ (forall repaired,
         fix_json (list_ascii_of_string "[a,b]") = Some repaired ->
         repaired !! 1%nat = Some "a"%char).
Proof.
  destruct (fix_json_edges (list_ascii_of_string "[a,b]"))
    as (_ & _ & Hin & Hcrash & _).
  split.
  - apply Hcrash; [reflexivity|right; reflexivity].
  - intros repaired Hr. rewrite (Hin repaired 1%nat Hr); [reflexivity|].
    cbn. lia.
Defined.

(** ** Nested statements with nested logging off *)

Lemma standard_calls_log_nothing (extra : list Call) :
  forallb is_standard_call extra = true ->
  log_records extra = [] /\ connection_steps extra = [].
Proof.
  induction extra as [|c extra IH]; [split; reflexivity|].
  cbn [forallb]. intros H. apply andb_true_iff in H as [Hc Hrest].
  destruct (IH Hrest) as [IH1 IH2].
  destruct c; try discriminate Hc; cbn; split; assumption.
Qed.

Section Silent.

Context {A B : Type}.

Lemma silent_from_ret (low : Z) (a : A) (depth : nat) :
  silent_from low (ret a) depth.
Proof.
  intros w _ _ _. cbn. split; [discriminate|]. split; [reflexivity|].
  exists []. rewrite app_nil_r. split; reflexivity.
Qed.

Lemma silent_from_elog_ERROR (low : Z) (msg : string) (depth : nat) :
  silent_from low (@elog_ERROR A msg) depth.
Proof.
  intros w _ _ _. cbn. split; [discriminate|]. split; [reflexivity|].
  exists []. rewrite app_nil_r. split; reflexivity.
Qed.

Lemma silent_from_weaken (low low' : Z) (c : M A) (depth depth' : nat) :
  low <= low' -> (depth <= depth')%nat ->
  silent_from low c depth -> silent_from low' c depth'.
Proof.
  intros Hlow Hdepth Hc w Hn Hl Hb. apply Hc; [exact Hn|lia|lia].
Qed.

Lemma silent_from_bind (low : Z) (c : M A) (k : A -> M B) (depth : nat) :
  silent_from low c depth -> (forall a, silent_from low (k a) depth) ->
  silent_from low (bind c k) depth.
Proof.
  intros Hc Hk w Hn Hl Hb.
  destruct (Hc w Hn Hl Hb) as (Hnc & Hg & extra & Hcalls & Hstd).
  unfold bind. destruct (c w) as [[a|msg|] w1]; cbn [fst snd] in *.
  - destruct (Hk a w1) as (Hnc2 & Hg2 & extra2 & Hcalls2 & Hstd2);
      try (rewrite Hg; assumption).
    destruct (k a w1) as [o w2]; cbn [fst snd] in *.
    split; [exact Hnc2|]. split; [congruence|].
    exists (extra ++ extra2)%list. split.
    + rewrite Hcalls2, Hcalls, app_assoc. reflexivity.
    + rewrite forallb_app, Hstd, Hstd2. reflexivity.
  - split; [discriminate|]. split; [exact Hg|].
    exists extra. split; assumption.
  - destruct (Hnc eq_refl).
Qed.

End Silent.

Lemma silent_from_call (low : Z) (c : Call) (depth : nat) :
  is_standard_call c = true -> silent_from low (call c) depth.
Proof.
  intros Hc w _ _ _. cbn. split; [discriminate|]. split; [reflexivity|].
  exists [c]. split; [reflexivity|]. cbn. rewrite Hc. reflexivity.
Qed.

Lemma silent_from_catch (low : Z) (body : M unit) (depth : nat) :
  silent_from low body depth ->
  silent_from low (PG_TRY body (fun _ => ret tt)) depth.
Proof.
  intros Hb w Hn Hl Hd.
  destruct (Hb w Hn Hl Hd) as (Hnc & Hg & extra & Hcalls & Hstd).
  unfold PG_TRY. destruct (body w) as [[[]|msg|] w1]; cbn [fst snd ret] in *.
  - split; [discriminate|]. split; [exact Hg|]. exists extra. tauto.
  - split; [discriminate|]. split; [exact Hg|]. exists extra. tauto.
  - destruct (Hnc eq_refl).
Qed.

Lemma with_nesting_level_restore (g : Globals) (n : Z) :
  with_nesting_level (nesting_level g) (with_nesting_level n g) = g.
Proof. destruct g; reflexivity. Qed.

(** One level down, and back. *)
Lemma silent_from_depth_guard (delegate : M unit) (depth : nat) :
  silent_from 1 delegate depth ->
  silent_from 0 (depth_guard delegate) (S depth).
Proof.
  intros Hd w Hn Hl Hb. unfold depth_guard.
  set (entered := {| globals := nesting_level_incr (globals w);
                     calls := calls w |}).
  assert (Hwrap : wrap_int (nesting_level (globals w) + 1)
                  = nesting_level (globals w) + 1).
  { unfold wrap_int. rewrite Z.mod_small; lia. }
  assert (Hin : nesting_level (globals entered)
                = nesting_level (globals w) + 1).
  { cbn. exact Hwrap. }
  destruct (Hd entered) as (Hnc & Hg & extra & Hcalls & Hstd).
  { cbn. destruct (globals w); exact Hn. }
  { rewrite Hin. lia. }
  { rewrite Hin. lia. }
  assert (Hback : forall w1,
             globals w1 = globals entered ->
             nesting_level_decr (globals w1) = globals w).
  { intros w1 Hw1. rewrite Hw1. unfold nesting_level_decr.
    rewrite Hin. unfold entered. cbn [globals].
    unfold nesting_level_incr.
    replace (wrap_int (nesting_level (globals w) + 1 - 1))
      with (nesting_level (globals w)).
    - apply with_nesting_level_restore.
    - unfold wrap_int.
      replace (nesting_level (globals w) + 1 - 1)
        with (nesting_level (globals w)) by lia.
      rewrite Z.mod_small; lia. }
  destruct (delegate entered) as [[[]|msg|] w1]; cbn [fst snd globals calls] in *.
  - split; [discriminate|]. split; [apply Hback, Hg|].
    exists extra. split; assumption.
  - split; [discriminate|]. split; [apply Hback, Hg|].
    exists extra. split; assumption.
  - destruct (Hnc eq_refl).
Qed.

Section NestedOff.

Variable E : Engine.

Lemma qflash_enabled_nested_off (queryDesc : QueryDesc) (w : World) :
  qflash_log_nested (globals w) = false ->
  1 <= nesting_level (globals w) ->
  on_globals (qflash_enabled E queryDesc) w = (Returned false, w).
Proof.
  intros Hn Hl. unfold on_globals, qflash_enabled.
  destruct (qflash_enabled_status (globals w)); cbn [negb];
    [|rewrite world_eta; reflexivity].
  assert (H0 : (nesting_level (globals w) =? 0) = false)
    by (apply Z.eqb_neq; lia).
  rewrite H0, Hn. cbn. rewrite world_eta. reflexivity.
Qed.

Lemma bind_qflash_enabled_nested_off {A} (queryDesc : QueryDesc)
    (k : bool -> M A) (w : World) :
  qflash_log_nested (globals w) = false ->
  1 <= nesting_level (globals w) ->
  bind (on_globals (qflash_enabled E queryDesc)) k w = k false w.
Proof.
  intros Hn Hl. unfold bind.
  rewrite (qflash_enabled_nested_off queryDesc w Hn Hl). reflexivity.
Qed.

Lemma silent_explain_ExecutorStart (queryDesc : QueryDesc) (eflags : Z)
    (depth : nat) :
  silent_from 1
    (explain_ExecutorStart E None standard_ExecutorStart queryDesc eflags)
    depth.
Proof.
  intros w Hn Hl Hb.
  assert (Hrun : explain_ExecutorStart E None standard_ExecutorStart
                   queryDesc eflags w
                 = (Returned queryDesc,
                    {| globals := globals w;
                       calls := calls w ++ [C_standard_ExecutorStart eflags] |})).
  { unfold explain_ExecutorStart.
    rewrite (bind_qflash_enabled_nested_off _ _ w Hn Hl).
    unfold standard_ExecutorStart.
    unfold bind at 1. unfold bind at 1. unfold call at 1. unfold ret at 1.
    rewrite bind_qflash_enabled_nested_off by assumption.
    reflexivity. }
  rewrite Hrun. cbn [fst snd globals calls].
  split; [discriminate|]. split; [reflexivity|].
  exists [C_standard_ExecutorStart eflags]. split; reflexivity.
Qed.

Lemma silent_explain_ExecutorEnd (plan_execution : M unit)
    (queryDesc : QueryDesc) (depth : nat) :
  silent_from 1
    (explain_ExecutorEnd_running E None standard_ExecutorEnd plan_execution
       queryDesc) depth.
Proof.
  intros w Hn Hl Hb.
  assert (He : qflash_enabled E queryDesc (globals w) = (false, globals w)).
  { unfold qflash_enabled.
    destruct (qflash_enabled_status (globals w)); [|reflexivity].
    assert (H0 : (nesting_level (globals w) =? 0) = false)
      by (apply Z.eqb_neq; lia).
    rewrite H0, Hn. reflexivity. }
  rewrite (explain_ExecutorEnd_running_skipped E _ _ plan_execution queryDesc
             w (globals w) He).
  cbn. split; [discriminate|]. split; [reflexivity|].
  exists [C_standard_ExecutorEnd]. split; reflexivity.
Qed.

(** Below the top level, with nested logging off, every activity and
    every query is silent. *)
Lemma silent_perform (a : Activity) :
  silent_from 1 (perform E a) (activity_depth a).
Proof.
  induction a using Activity_mind
    with (P0 := fun q => silent_from 1 (execute E q) (query_depth q));
    cbn [perform execute activity_depth query_depth].
  - apply silent_from_ret.
  - apply silent_from_elog_ERROR.
  - apply silent_from_bind.
    + eapply silent_from_weaken; [| |exact IHa]; lia.
    + intros _. eapply silent_from_weaken; [| |exact IHa0]; lia.
  - apply silent_from_bind.
    + apply silent_from_catch.
      eapply silent_from_weaken; [| |exact IHa1]; lia.
    + intros _. eapply silent_from_weaken; [| |exact IHa2]; lia.
  - apply silent_from_bind; [apply silent_explain_ExecutorStart|].
    intros d. apply silent_from_bind.
    { intros w Hn Hl Hb. rewrite explain_ExecutorRun_guard.
      apply (silent_from_weaken 0 1 _
               (S (activity_depth a1))
               (S (Nat.max (activity_depth a1) (activity_depth a2))));
        [lia|lia| |exact Hn|exact Hl|exact Hb].
      apply silent_from_depth_guard. exact IHa1. }
    intros _. apply silent_from_bind.
    { intros w Hn Hl Hb. rewrite explain_ExecutorFinish_guard.
      apply (silent_from_weaken 0 1 _
               (S (activity_depth a2))
               (S (Nat.max (activity_depth a1) (activity_depth a2))));
        [lia|lia| |exact Hn|exact Hl|exact Hb].
      apply silent_from_depth_guard. exact IHa2. }
    intros _. apply silent_explain_ExecutorEnd.
Qed.

End NestedOff.



(** ** One row per top-level statement *)

Section SilentAt.

Context {A B : Type}.

Lemma silent_at_ret (g : Globals) (a : A) : silent_at g (ret a).
Proof.
  intros cs. cbn. split; [discriminate|]. split; [reflexivity|].
  exists []. rewrite app_nil_r. split; reflexivity.
Qed.

Lemma silent_at_elog_ERROR (g : Globals) (msg : string) :
  silent_at g (@elog_ERROR A msg).
Proof.
  intros cs. cbn. split; [discriminate|]. split; [reflexivity|].
  exists []. rewrite app_nil_r. split; reflexivity.
Qed.

Lemma silent_at_bind (g : Globals) (c : M A) (k : A -> M B) :
  silent_at g c -> (forall a, silent_at g (k a)) -> silent_at g (bind c k).
Proof.
  intros Hc Hk cs. cbv zeta.
  destruct (Hc cs) as (Hnc & Hg & extra & Hcalls & Hstd).
  unfold bind.
  destruct (c {| globals := g; calls := cs |}) as [[a|msg|] [g1 cs1]];
    cbn [fst snd globals calls] in *.
  - subst g1 cs1.
    destruct (Hk a (cs ++ extra)%list) as (Hnc2 & Hg2 & extra2 & Hcalls2 & Hstd2).
    split; [exact Hnc2|]. split; [exact Hg2|].
    exists (extra ++ extra2)%list. split.
    + rewrite Hcalls2, app_assoc. reflexivity.
    + rewrite forallb_app, Hstd, Hstd2. reflexivity.
  - split; [discriminate|]. split; [exact Hg|].
    exists extra. split; assumption.
  - destruct (Hnc eq_refl).
Qed.

Lemma silent_from_at (low : Z) (c : M A) (depth : nat) (g : Globals) :
  silent_from low c depth ->
  qflash_log_nested g = false ->
  low <= nesting_level g ->
  nesting_level g + Z.of_nat depth < 2 ^ 31 ->
  silent_at g c.
Proof.
  intros Hc Hn Hl Hb cs. apply (Hc {| globals := g; calls := cs |}); assumption.
Qed.

End SilentAt.

Lemma silent_at_catch (g : Globals) (body : M unit) :
  silent_at g body -> silent_at g (PG_TRY body (fun _ => ret tt)).
Proof.
  intros Hb cs. cbv zeta.
  destruct (Hb cs) as (Hnc & Hg & extra & Hcalls & Hstd).
  unfold PG_TRY.
  destruct (body {| globals := g; calls := cs |}) as [[[]|msg|] w1];
    cbn [fst snd ret] in *.
  - split; [discriminate|]. split; [exact Hg|]. exists extra. tauto.
  - split; [discriminate|]. split; [exact Hg|]. exists extra. tauto.
  - destruct (Hnc eq_refl).
Qed.

Section TopLevel.

Variable E : Engine.

(** With a relation identifier in the cache, the eligibility test writes
    nothing. *)
Lemma qflash_enabled_cached (queryDesc : QueryDesc) (g : Globals) :
  OidIsValid (qflash_log_rel_oid g) = true ->
  snd (qflash_enabled E queryDesc g) = g.
Proof.
  intros Hv. rewrite qflash_enabled_snd.
  rewrite (get_qflash_log_rel_oid_cached E g Hv).
  destruct (_ && _); reflexivity.
Qed.

(** The recursion guard at work: a statement on the relation whose
    identifier is in the cache is not eligible. *)
Lemma qflash_enabled_on_sink (queryDesc : QueryDesc) (g : Globals) :
  OidIsValid (qflash_log_rel_oid g) = true ->
  head (relationOids (plannedstmt queryDesc)) = Some (qflash_log_rel_oid g) ->
  qflash_enabled E queryDesc g = (false, g).
Proof.
  intros Hv Hhead.
  apply injective_projections; cbn [fst snd];
    [|apply qflash_enabled_cached, Hv].
  rewrite qflash_enabled_fst, (get_qflash_log_rel_oid_cached E g Hv).
  cbn [fst snd].
  destruct (relationOids (plannedstmt queryDesc)) as [|first rest];
    [discriminate Hhead|].
  cbn in Hhead. inversion Hhead; subst first.
  unfold recursion_guard. rewrite Z.eqb_refl. cbn [negb].
  destruct (0 <? _); cbn [andb]; apply andb_false_r.
Qed.

(** The start hook of a statement that is not eligible. *)
Lemma explain_ExecutorStart_not_eligible (queryDesc : QueryDesc) (eflags : Z)
    (w : World) :
  qflash_enabled E queryDesc (globals w) = (false, globals w) ->
  explain_ExecutorStart E None standard_ExecutorStart queryDesc eflags w
  = (Returned queryDesc,
     {| globals := globals w;
        calls := calls w ++ [C_standard_ExecutorStart eflags] |}).
Proof.
  intros He. unfold explain_ExecutorStart, standard_ExecutorStart.
  run_step. rewrite He. cbn [globals calls]. rewrite He. reflexivity.
Qed.

(** With a relation identifier in the cache and the standard routine as
    the rest of its chain, the start hook returns, leaves the globals as
    they were and hands no row to SPI. *)
Lemma explain_ExecutorStart_standard (queryDesc : QueryDesc) (eflags : Z)
    (w : World) :
  OidIsValid (qflash_log_rel_oid (globals w)) = true ->
  exists d' w',
    explain_ExecutorStart E None standard_ExecutorStart queryDesc eflags w
    = (Returned d', w')
    /\ globals w' = globals w
    /\ log_records (calls w') = log_records (calls w).
Proof.
  intros Hv. unfold explain_ExecutorStart, standard_ExecutorStart. run_step.
  pose proof (qflash_enabled_cached queryDesc (globals w) Hv) as F1.
  destruct (qflash_enabled E queryDesc (globals w)) as [en g1].
  cbn [snd] in F1. subst g1. run_step.
  match goal with
  | |- context [qflash_enabled E ?d (globals w)] =>
      pose proof (qflash_enabled_cached d (globals w) Hv) as F2;
      destruct (qflash_enabled E d (globals w)) as [en2 g2]
  end.
  cbn [snd] in F2. subst g2. run_step.
  destruct (en2 && _); run_step; eexists; eexists;
    (split; [reflexivity|]); cbn [globals calls];
    (split; [reflexivity|]);
    rewrite !log_records_app; cbn; rewrite ?app_nil_r; reflexivity.
Qed.

(** A statement on the cached sink, at any depth, is silent, with whatever
    runs inside it; so is an activity made of such statements. *)
Lemma silent_at_on_sink (g : Globals) (a : Activity) :
  qflash_log_nested g = false ->
  0 <= nesting_level g ->
  nesting_level g + Z.of_nat (activity_depth a) < 2 ^ 31 ->
  OidIsValid (qflash_log_rel_oid g) = true ->
  on_sink (qflash_log_rel_oid g) a ->
  silent_at g (perform E a).
Proof.
  intros Hn Hl Hb Hv. revert Hb.
  induction a using Activity_mind
    with (P0 := fun q =>
                  nesting_level g + Z.of_nat (query_depth q) < 2 ^ 31 ->
                  on_sink_query (qflash_log_rel_oid g) q ->
                  silent_at g (execute E q));
    cbn [perform execute activity_depth query_depth on_sink on_sink_query].
  - intros _ _. apply silent_at_ret.
  - intros _ _. apply silent_at_elog_ERROR.
  - intros Hb [Hq Hrest]. apply silent_at_bind.
    + apply IHa; [lia|exact Hq].
    + intros _. apply IHa0; [lia|exact Hrest].
  - intros Hb [Hbody Hrest]. apply silent_at_bind.
    + apply silent_at_catch. apply IHa1; [lia|exact Hbody].
    + intros _. apply IHa2; [lia|exact Hrest].
  - intros Hb [Hhead Hmeasured] cs.
    assert (He : qflash_enabled E queryDesc g = (false, g))
      by (apply qflash_enabled_on_sink; assumption).
    unfold bind at 1.
    rewrite (explain_ExecutorStart_not_eligible queryDesc eflags
               {| globals := g; calls := cs |} He).
    cbn [globals calls]. cbv zeta.
    assert (Hrest :
              silent_at g
                (explain_ExecutorRun None (fun _ _ _ => perform E a1)
                   queryDesc ForwardScanDirection 0;;
                 explain_ExecutorFinish None (fun _ => perform E a2)
                   queryDesc;;
                 explain_ExecutorEnd_running E None standard_ExecutorEnd
                   (perform E a3) (measured queryDesc))).
    { apply silent_at_bind.
      { intros cs'. cbv zeta. rewrite explain_ExecutorRun_guard.
        apply (silent_from_at 0 _ (S (activity_depth a1)));
          [apply silent_from_depth_guard, silent_perform
          |exact Hn|exact Hl|lia]. }
      intros _. apply silent_at_bind.
      { intros cs'. cbv zeta. rewrite explain_ExecutorFinish_guard.
        apply (silent_from_at 0 _ (S (activity_depth a2)));
          [apply silent_from_depth_guard, silent_perform
          |exact Hn|exact Hl|lia]. }
      intros _ cs'. cbv zeta.
      assert (He' : qflash_enabled E (measured queryDesc) g = (false, g)).
      { apply qflash_enabled_on_sink; [exact Hv|].
        rewrite Hmeasured. exact Hhead. }
      rewrite (explain_ExecutorEnd_running_skipped E _ _ (perform E a3)
                 (measured queryDesc) {| globals := g; calls := cs' |} g He').
      cbn. split; [discriminate|]. split; [reflexivity|].
      exists [C_standard_ExecutorEnd]. split; reflexivity. }
    destruct (Hrest (cs ++ [C_standard_ExecutorStart eflags])%list)
      as (Hnc & Hg & extra & Hcalls & Hstd).
    split; [exact Hnc|]. split; [exact Hg|].
    exists (C_standard_ExecutorStart eflags :: extra). split.
    + rewrite Hcalls, <- app_assoc. reflexivity.
    + cbn [forallb is_standard_call andb]. exact Hstd.
Qed.

(** The run of [log_InRelation_running]: a failed connect or prepare stops
    it before the INSERT is executed; after them the execution of the
    INSERT starts from the history that ends with the [SPI_execute_plan]
    call. *)
Lemma log_InRelation_running_run (plan_execution : M unit)
    (es : ExplainState) (queryDesc : QueryDesc) (instr : Instrumentation)
    (w : World) :
  totaltime queryDesc = Some instr ->
  let g' :=
    with_nesting_spi_level (nesting_level (globals w)) (globals w) in
  let failed := execute_plan_failed (generate_insert_log_query (globals w))
                  (sourceText queryDesc) in
  log_InRelation_running E plan_execution es queryDesc w
  = if connect_fails E w then
      (Raised "SPI_connect failed",
       {| globals := g'; calls := history_at_prepare w |})
    else if prepare_fails E w then
      (Raised failed, {| globals := g'; calls := history_at_execute w |})
    else
      (plan_execution;;
       (if execute_fails E w then elog_ERROR failed else ret tt);;
       let* rc := answer (SPI_finish E) in
       call C_SPI_finish;;
       if negb (rc =? SPI_OK_FINISH) then elog_ERROR "SPI_finish failed"
       else ret tt)
        {| globals := g';
           calls := history_at_finish w es queryDesc instr |}.
Proof.
  intros Ht. cbv zeta.
  unfold connect_fails, prepare_fails, execute_fails,
    history_at_finish, history_at_execute, history_at_prepare,
    history_at_connect, connects, execute_call, prepare_call, log_record,
    steps_for, log_InRelation_running, connect_at_depth.
  rewrite Ht. destruct w as [g cs]. run_step.
  destruct (nesting_spi_level g <? nesting_level g) eqn:Hlt; run_step.
  - cbn [with_nesting_spi_level nesting_spi_level nesting_level].
    assert (Hgt : (nesting_level g >? nesting_level g) = false)
      by (rewrite Z.gtb_ltb; apply Z.ltb_irrefl).
    assert (Hgt' : (nesting_spi_level g >? nesting_level g) = false)
      by (rewrite Z.gtb_ltb; apply Z.ltb_ge; apply Z.ltb_lt in Hlt; lia).
    rewrite Hgt, Hgt'. run_step. cbn [negb andb].
    replace (with_nesting_spi_level (nesting_level g)
               (with_nesting_spi_level (nesting_level g) g))
      with (with_nesting_spi_level (nesting_level g) g)
      by (destruct g; reflexivity).
    rewrite <- !app_assoc. cbn [app].
    destruct (negb (SPI_connect E _ =? SPI_OK_CONNECT)); run_step;
      [reflexivity|].
    destruct (negb (SPI_prepare E _)); run_step; rewrite <- ?app_assoc;
      reflexivity.
  - destruct (nesting_spi_level g >? nesting_level g) eqn:Hgt; run_step;
      cbn [negb andb]; rewrite <- ?app_assoc; cbn [app];
      rewrite ?app_nil_r.
    + destruct (negb (SPI_prepare E _)); run_step; rewrite <- ?app_assoc;
        reflexivity.
    + assert (Heq : nesting_level g = nesting_spi_level g)
        by (rewrite Z.gtb_ltb in Hgt; apply Z.ltb_ge in Hlt, Hgt; lia).
      rewrite Heq, with_nesting_spi_level_same.
      destruct (negb (SPI_connect E _ =? SPI_OK_CONNECT)); run_step;
        [reflexivity|].
      destruct (negb (SPI_prepare E _)); run_step; rewrite <- ?app_assoc;
        reflexivity.
Qed.

(** With a relation identifier in the cache, the standard routine as the
    rest of its chain, and a silent execution of the INSERT, the end hook
    hands at most one row to SPI. *)
Lemma explain_ExecutorEnd_at_most_one (plan_execution : M unit)
    (queryDesc : QueryDesc) (w : World) :
  OidIsValid (qflash_log_rel_oid (globals w)) = true ->
  silent_at
    (with_nesting_spi_level (nesting_level (globals w)) (globals w))
    plan_execution ->
  exists extra,
    log_records
      (calls (snd (explain_ExecutorEnd_running E None standard_ExecutorEnd
                     plan_execution queryDesc w)))
    = (log_records (calls w) ++ extra)%list
    /\ (length extra <= 1)%nat.
Proof.
  intros Hv Hplan.
  pose proof (qflash_enabled_cached queryDesc (globals w) Hv) as Hg.
  destruct (qflash_enabled E queryDesc (globals w)) as [[|] g'] eqn:He;
    cbn [snd] in Hg; subst g'.
  - destruct (totaltime queryDesc) as [instr|] eqn:Ht.
    + destruct (total (InstrEndLoop E instr) * 1000
                <=? qflash_log_min_duration (globals w))%float eqn:Hd.
      * rewrite (explain_ExecutorEnd_running_fast E _ _ plan_execution
                   queryDesc w _ instr He Ht Hd).
        exists []. cbn [snd calls]. rewrite log_records_app. cbn.
        split; [reflexivity|lia].
      * rewrite (explain_ExecutorEnd_running_slow E _ _ plan_execution
                   queryDesc w _ instr He Ht Hd).
        cbv zeta. unfold bind at 1.
        rewrite (log_InRelation_running_run plan_execution _
                   (set_totaltime (Some (InstrEndLoop E instr)) queryDesc)
                   (InstrEndLoop E instr) _ eq_refl).
        cbv zeta.
        unfold connect_fails, prepare_fails, execute_fails,
          history_at_finish, history_at_execute, history_at_prepare.
        cbn [globals calls].
        destruct (connects (globals w) && _).
        { exists []. cbn [snd calls].
          rewrite !log_records_app, log_records_steps_for. cbn.
          rewrite !app_nil_r. split; [reflexivity|lia]. }
        destruct (negb (SPI_prepare E _)).
        { exists []. cbn [snd calls]. unfold prepare_call.
          rewrite !log_records_app, log_records_steps_for. cbn.
          rewrite !app_nil_r. split; [reflexivity|lia]. }
        match goal with
        | |- context [{| globals := ?g; calls := ?cs |}] =>
            set (history := cs) in *;
            destruct (Hplan history) as (Hnc & Hg1 & extra & Hcalls & Hstd);
            assert (Hrec : exists row,
                             log_records history
                             = (log_records (calls w) ++ [row])%list)
        end.
        { eexists. unfold history, prepare_call, execute_call.
          rewrite !log_records_app, log_records_steps_for. cbn.
          rewrite !app_nil_r. reflexivity. }
        destruct Hrec as [row Hrec].
        destruct (standard_calls_log_nothing extra Hstd) as [Hnone _].
        unfold bind at 1.
        destruct (plan_execution _) as [[[]|msg|] [g1 cs1]];
          cbn [fst snd globals calls] in *; [| |destruct (Hnc eq_refl)];
          subst g1 cs1.
        2: { eexists [_]. rewrite log_records_app, Hrec, Hnone, app_nil_r.
             split; [reflexivity|cbn; lia]. }
        eexists [_]. split; [|cbn; lia].
        destruct (SPI_execute_plan E _ <=? 0); run_step;
          [rewrite log_records_app, Hrec, Hnone, app_nil_r; reflexivity|].
        destruct (negb (SPI_finish E _ =? SPI_OK_FINISH)); run_step;
          unfold ExecutorEnd_chain, standard_ExecutorEnd; run_step;
          rewrite !log_records_app, Hrec, Hnone; cbn;
          rewrite !app_nil_r; reflexivity.
    + rewrite (explain_ExecutorEnd_running_null E _ _ plan_execution
                 queryDesc w _ He Ht).
      exists []. cbn [snd calls]. rewrite log_records_app. cbn.
      split; [reflexivity|lia].
  - rewrite (explain_ExecutorEnd_running_skipped E _ _ plan_execution
               queryDesc w _ He).
    exists []. cbn. rewrite log_records_app. cbn.
    split; [reflexivity|lia].
Qed.

End TopLevel.

(** X19.  The recursion guard keeps the logging from logging itself.  With
    nested logging off and a relation identifier in the cache, a top-level
    statement hands at most one row to SPI, whatever runs inside its run and
    finish phases and however it ends, provided that what [SPI_execute_plan]
    runs for its end hook is made of statements whose relation list starts
    with the cached identifier (the INSERT into the sink, whatever fires
    inside it): these pass through the four hooks at depth 0 and are turned
    down by the first-relation test.  (In [demo_stale] the INSERT names a
    table other than the cached one: there the proviso fails and two rows
    are handed over, as the lemma after this one computes.) *)
Theorem top_level_statement_at_most_one_row (E : Engine) (q : Query)
    (w : World) :
  qflash_log_nested (globals w) = false ->
  nesting_level (globals w) = 0 ->
  Z.of_nat (query_depth q) < 2 ^ 31 ->
  Z.of_nat (activity_depth (logging_of q)) < 2 ^ 31 ->
  OidIsValid (qflash_log_rel_oid (globals w)) = true ->
  on_sink (qflash_log_rel_oid (globals w)) (logging_of q) ->
  exists extra,
    log_records (calls (snd (execute E q w)))
    = (log_records (calls w) ++ extra)%list
    /\ (length extra <= 1)%nat.
Proof.
  intros Hn Hl Hb Hbl Hv Hsink.
  destruct q as [queryDesc eflags run finish logging measured].
  cbn [execute query_depth logging_of] in *.
  destruct (explain_ExecutorStart_standard E queryDesc eflags w Hv)
    as (d1 & w1 & Hs & Hg1 & Hr1).
  unfold bind at 1. rewrite Hs.
  unfold bind at 1. rewrite explain_ExecutorRun_guard.
  destruct (silent_from_depth_guard (perform E run) _ (silent_perform E run)
              w1) as (Hnc & Hg & ex & Hc & Hstd);
    [rewrite Hg1; exact Hn|rewrite Hg1; lia|rewrite Hg1; lia|].
  destruct (standard_calls_log_nothing ex Hstd) as [Hrec _].
  destruct (depth_guard (perform E run) w1) as [[[]|msg|] w2];
    cbn [fst snd] in *; [| |destruct (Hnc eq_refl)].
  2: { exists []. rewrite Hc, log_records_app, Hrec, Hr1.
       split; [reflexivity|cbn; lia]. }
  assert (Hr2 : log_records (calls w2) = log_records (calls w)).
  { rewrite Hc, log_records_app, Hrec, app_nil_r. exact Hr1. }
  assert (Hg2 : globals w2 = globals w) by congruence.
  clear Hnc ex Hc Hstd Hrec Hg.
  unfold bind at 1. rewrite explain_ExecutorFinish_guard.
  destruct (silent_from_depth_guard (perform E finish) _
              (silent_perform E finish) w2)
    as (Hnc & Hg & ex & Hc & Hstd);
    [rewrite Hg2; exact Hn|rewrite Hg2; lia|rewrite Hg2; lia|].
  destruct (standard_calls_log_nothing ex Hstd) as [Hrec _].
  destruct (depth_guard (perform E finish) w2) as [[[]|msg|] w3];
    cbn [fst snd] in *; [| |destruct (Hnc eq_refl)].
  2: { exists []. rewrite Hc, log_records_app, Hrec, Hr2.
       split; [reflexivity|cbn; lia]. }
  assert (Hr3 : log_records (calls w3) = log_records (calls w)).
  { rewrite Hc, log_records_app, Hrec, app_nil_r. exact Hr2. }
  assert (Hg3 : globals w3 = globals w) by congruence.
  rewrite <- Hr3. apply explain_ExecutorEnd_at_most_one.
  - rewrite Hg3. exact Hv.
  - rewrite Hg3. apply silent_at_on_sink.
    + destruct (globals w); exact Hn.
    + destruct (globals w); cbn in *; lia.
    + destruct (globals w); cbn in *; lia.
    + destruct (globals w); exact Hv.
    + destruct (globals w); exact Hsink.
Qed.

Lemma top_level_statement_at_most_one_row_witness :
  (exists extra,
      log_records
        (calls (snd (execute demo_engine demo_nested
                       (demo_world demo_resolved))))
      = (log_records (calls (demo_world demo_resolved)) ++ extra)%list
      /\ (length extra <= 1)%nat)
  /\ length (log_records
               (calls (snd (execute demo_engine demo_nested
                              (demo_world demo_resolved))))) = 1%nat
  /\ ~ on_sink (qflash_log_rel_oid demo_resolved) (logging_of demo_stale)
  /\ length (log_records
               (calls (snd (execute demo_engine demo_stale
                              (demo_world demo_resolved))))) = 2%nat.
Proof.
  split; [|split; [vm_compute; reflexivity|split;
                                           [|vm_compute; reflexivity]]].
  - apply (top_level_statement_at_most_one_row demo_engine demo_nested
             (demo_world demo_resolved));
      [reflexivity|reflexivity|vm_compute; reflexivity
      |vm_compute; reflexivity|reflexivity|].
    cbn. repeat split; reflexivity.
  - cbn. intros [[H _] _]. discriminate H.
Defined.
